(** * seller-apis: stock and price synchronisation with Ozon and Yandex.Market

    A shallow embedding of [seller.py] and [market.py] and the properties of
    the feed reconciliation, the batch splitter, the price normaliser, the
    feed loader and the paginated catalogue listing.

    Conventions.
    - A Python [str] is a [string], read as the UTF-8 bytes of the text.  The
      characters the code inspects (".", "0".."9") are ASCII, and no byte of a
      multi-byte UTF-8 sequence is ASCII, so splitting on "." and deleting
      what is not an ASCII digit act on bytes exactly as they act on code
      points.
    - A spreadsheet cell is a [Py.value]: a string, an integer or [None]
      (the result of [dict.get] on a missing column).  Fractional cells
      (Python floats) are outside the model.
    - A function that can raise returns a [Py.result]; a function that
      mutates the list of offer identifiers runs in the monad [M] over the
      contents of that list. *)

From Stdlib Require Import ZArith String Ascii List Lia DecimalString DecimalPos.
From stdpp Require Import base list strings gmap.

Local Open Scope string_scope.
Local Open Scope Z_scope.
Local Open Scope list_scope.

(** ** Python values and the builtins the code calls *)

Module Py.

Inductive exn : Set :=
| ValueError
| TypeError
| AttributeError
| IndexError
| HTTPError
| BadZipFile
| FileNotFoundError
| ParseError.

Inductive result (A : Type) : Type :=
| Ok (a : A)
| Raise (e : exn).
Arguments Ok {A} a.
Arguments Raise {A} e.

Definition bind {A B} (r : result A) (k : A → result B) : result B :=
  match r with
  | Ok a => k a
  | Raise e => Raise e
  end.

(** [[f(x) for x in l]], stopping at the first exception. *)
Fixpoint for_each {A B} (f : A → result B) (l : list A) : result (list B) :=
  match l with
  | [] => Ok []
  | x :: l' => bind (f x) (λ y, bind (for_each f l') (λ ys, Ok (y :: ys)))
  end.

Inductive value : Set :=
| VNone
| VStr (s : string)
| VInt (z : Z).

(** A row of the feed: [dict] from column name to cell. *)
Abbreviation dict := (gmap string value).

(** [d.get(k)]: [None] when the key is missing. *)
Definition get (k : string) (d : dict) : value := default VNone (d !! k).

(** [str(v)]. *)
Definition str (v : value) : string :=
  match v with
  | VNone => "None"
  | VStr s => s
  | VInt z => NilZero.string_of_int (Z.to_int z)
  end.

Definition is_digit (c : ascii) : bool :=
  let n := N_of_ascii c in ((48 <=? n) && (n <=? 57))%N.

Definition digit_value (c : ascii) : Z := Z.of_N (N_of_ascii c) - 48.

(** The blanks [int] strips from both ends of its argument. *)
Definition is_space (c : ascii) : bool :=
  let n := N_of_ascii c in
  (((9 <=? n) && (n <=? 13)) || ((28 <=? n) && (n <=? 32)))%N.

Fixpoint lstrip (s : string) : string :=
  match s with
  | String c r => if is_space c then lstrip r else s
  | EmptyString => EmptyString
  end.

Fixpoint rstrip (s : string) : string :=
  match s with
  | String c r =>
      match rstrip r with
      | EmptyString => if is_space c then EmptyString else String c EmptyString
      | r' => String c r'
      end
  | EmptyString => EmptyString
  end.

Definition strip (s : string) : string := rstrip (lstrip s).

(** The digits of a decimal literal; a single "_" may separate two digits.
    [prev] says that the previous character was a digit. *)
Fixpoint int_digits (prev : bool) (acc : Z) (s : string) : option Z :=
  match s with
  | EmptyString => if prev then Some acc else None
  | String c r =>
      if is_digit c then int_digits true (10 * acc + digit_value c) r
      else if Ascii.eqb c "_" then
             if prev then int_digits false acc r else None
           else None
  end.

(** [int(s)] on a string, base 10: blanks stripped, an optional sign, then
    the digits.  The blanks and digits are the ASCII ones; the digits and
    blanks of other scripts, which [int] also accepts, and the limit the
    interpreter puts on the length of a literal are outside the model. *)
Definition int_of_string (s : string) : result Z :=
  let t := strip s in
  let '(sign, body) :=
    match t with
    | String "-" r => (-1, r)
    | String "+" r => (1, r)
    | _ => (1, t)
    end in
  match int_digits false 0 body with
  | Some z => Ok (sign * z)
  | None => Raise ValueError
  end.

(** [int(v)]. *)
Definition int (v : value) : result Z :=
  match v with
  | VNone => Raise TypeError
  | VStr s => int_of_string s
  | VInt z => Ok z
  end.

(** [s.split(sep)] for a one-character separator. *)
Fixpoint split (sep : ascii) (s : string) : list string :=
  match s with
  | EmptyString => [EmptyString]
  | String c r =>
      if Ascii.eqb c sep then EmptyString :: split sep r
      else match split sep r with
           | h :: t => String c h :: t
           | [] => [String c EmptyString]
           end
  end.

(** [l[i]] for [i >= 0]. *)
Definition index {A} (l : list A) (i : nat) : result A :=
  match l !! i with
  | Some x => Ok x
  | None => Raise IndexError
  end.

(** [re.sub("[^lo-hi]", "", s)]: every character outside the range is
    replaced by the empty string. *)
Fixpoint re_sub_outside (lo hi : ascii) (s : string) : string :=
  match s with
  | EmptyString => EmptyString
  | String c r =>
      let n := N_of_ascii c in
      if ((N_of_ascii lo <=? n) && (n <=? N_of_ascii hi))%N
      then String c (re_sub_outside lo hi r)
      else re_sub_outside lo hi r
  end.

(** The number of elements of [range(start, stop, step)], [step <> 0]. *)
Definition range_len (start stop step : Z) : Z :=
  if 0 <? step then
    if start <? stop then (stop - start - 1) / step + 1 else 0
  else
    if stop <? start then (start - stop - 1) / (- step) + 1 else 0.

(** [range(start, stop, step)], which raises on a zero step. *)
Definition range (start stop step : Z) : result (list Z) :=
  if step =? 0 then Raise ValueError
  else Ok (map (λ k : nat, start + Z.of_nat k * step)
             (seq 0 (Z.to_nat (range_len start stop step)))).

(** A slice bound brought into [0 .. len]: negative bounds count from the
    end. *)
Definition clamp (len i : Z) : Z :=
  let i' := if i <? 0 then i + len else i in
  Z.max 0 (Z.min len i').

(** [l[i:j]]. *)
Definition slice {A} (l : list A) (i j : Z) : list A :=
  let len := Z.of_nat (length l) in
  let lo := Z.to_nat (clamp len i) in
  let hi := Z.to_nat (clamp len j) in
  take (hi - lo) (drop lo l).

(** [v == n] for an integer [n]. *)
Definition eq_int (v : value) (n : Z) : bool :=
  match v with
  | VInt z => z =? n
  | _ => false
  end.

(** The truth value of [v], as [not v] and [if v] test it. *)
Definition truthy (v : value) : bool :=
  match v with
  | VNone => false
  | VStr s => negb (String.eqb s "")
  | VInt z => negb (z =? 0)
  end.

(** What a generator does when it is run to the end: the values it yields,
    in order, and the exception that stops it, if any. *)
Record gen (A : Type) : Type := Gen { yielded : list A; raised : option exn }.
Arguments Gen {A} yielded raised.
Arguments yielded {A} g.
Arguments raised {A} g.

End Py.

Import Py.

(** ** The list of offer identifiers as mutable state

    [create_stocks] removes elements from the list object it is given, and
    the caller sees the removals.  A computation is a function of the current
    contents of that list, and returns the contents it leaves behind, also
    when it raises. *)

Definition M (A : Type) : Type := list string → result A * list string.

Definition ret {A} (a : A) : M A := λ ids, (Ok a, ids).

Definition bindM {A B} (m : M A) (k : A → M B) : M B :=
  λ ids,
    match m ids with
    | (Ok a, ids') => k a ids'
    | (Raise e, ids') => (Raise e, ids')
    end.

Notation "'let*' x ':=' m 'in' k" := (bindM m (λ x, k))
  (at level 10, x name, m at level 100, k at level 200).

(** An exception of a pure computation leaves the list as it is. *)
Definition lift {A} (r : result A) : M A := λ ids, (r, ids).

(** [x in offer_ids] *)
Definition contains (x : string) : M bool :=
  λ ids, (Ok (bool_decide (x ∈ ids)), ids).

(** The list with the first occurrence of [x] taken out. *)
Fixpoint remove_first (x : string) (l : list string) : list string :=
  match l with
  | [] => []
  | y :: l' => if decide (y = x) then l' else y :: remove_first x l'
  end.

(** [offer_ids.remove(x)]: raises when [x] is not in the list. *)
Definition list_remove (x : string) : M unit :=
  λ ids,
    if bool_decide (x ∈ ids) then (Ok tt, remove_first x ids)
    else (Raise ValueError, ids).

(** [list(offer_ids)] as the loop [for offer_id in offer_ids] reads it. *)
Definition iterate : M (list string) := λ ids, (Ok ids, ids).

(** ** Feed reconciliation

    [create_stocks] and [create_prices] of [seller.py] and of [market.py]
    differ in the payload they build only; [mk_stock] and [mk_price] stand
    for the payload. *)

Module Reconcile.
Section Reconcile.

Context {S P : Type}.
Variable mk_stock : string → Z → S.
Variable mk_price : dict → result P.

(** The quantity of a matched row:
    [count = str(watch.get("Количество"))], then 100 for ">10", 0 for "1",
    and [int(watch.get("Количество"))] otherwise. *)
Definition stock_of (watch : dict) : result Z :=
  let count := str (get "Количество" watch) in
  if decide (count = ">10") then Ok 100
  else if decide (count = "1") then Ok 0
  else int (get "Количество" watch).

(** The first loop of [create_stocks]; [stocks] is the list built so far. *)
Fixpoint match_stocks (watch_remnants : list dict) (stocks : list S)
  : M (list S) :=
  match watch_remnants with
  | [] => ret stocks
  | watch :: rest =>
      let* known := contains (str (get "Код" watch)) in
      if known : bool then
        let* stock := lift (stock_of watch) in
        let* _ := list_remove (str (get "Код" watch)) in
        match_stocks rest (stocks ++ [mk_stock (str (get "Код" watch)) stock])
      else match_stocks rest stocks
  end.

Definition create_stocks (watch_remnants : list dict) : M (list S) :=
  let* stocks := match_stocks watch_remnants [] in
  let* rest := iterate in
  ret (stocks ++ map (λ offer_id, mk_stock offer_id 0) rest).

(** The loop of [create_prices]; [prices] is the list built so far. *)
Fixpoint match_prices (watch_remnants : list dict) (prices : list P)
  : M (list P) :=
  match watch_remnants with
  | [] => ret prices
  | watch :: rest =>
      let* known := contains (str (get "Код" watch)) in
      if known : bool then
        let* price := lift (mk_price watch) in
        match_prices rest (prices ++ [price])
      else match_prices rest prices
  end.

Definition create_prices (watch_remnants : list dict) : M (list P) :=
  match_prices watch_remnants [].

End Reconcile.
End Reconcile.

(** ** seller.py *)

Module Seller.

(** A stock payload [{"offer_id": ..., "stock": ...}]. *)
Record stock : Set := Stock { stock_offer_id : string; stock_stock : Z }.

(** A price payload. *)
Record price : Set := Price {
  auto_action_enabled : string;
  currency_code : string;
  price_offer_id : string;
  old_price : string;
  price_price : string }.

(** [re.sub("[^0-9]", "", price.split(".")[0])] *)
Definition price_conversion (price : string) : result string :=
  bind (index (split "." price) 0) (λ whole,
  Ok (re_sub_outside "0" "9" whole)).

(** [price_conversion] applied to a cell: [price.split] exists on strings
    only. *)
Definition price_conversion_cell (price : value) : result string :=
  match price with
  | VStr s => price_conversion s
  | _ => Raise AttributeError
  end.

(** [for i in range(0, len(lst), n): yield lst[i : i + n]] *)
Definition divide {A} (lst : list A) (n : Z) : gen (list A) :=
  match range 0 (Z.of_nat (length lst)) n with
  | Raise e => Gen [] (Some e)
  | Ok idx => Gen (map (λ i, slice lst i (i + n)) idx) None
  end.

(** The quantity of a stock payload. *)
Definition quantity (s : stock) : option Z := Some (stock_stock s).

(** The payload built at line 197 and at line 201. *)
Definition mk_stock (offer_id : string) (quantity : Z) : stock :=
  Stock offer_id quantity.

(** The payload built at lines 237-243. *)
Definition mk_price (watch : dict) : result price :=
  bind (price_conversion_cell (get "Цена" watch)) (λ p,
  Ok (Price "UNKNOWN" "RUB" (str (get "Код" watch)) "0" p)).

Definition create_stocks (watch_remnants : list dict) : M (list stock) :=
  Reconcile.create_stocks mk_stock watch_remnants.

Definition create_prices (watch_remnants : list dict) : M (list price) :=
  Reconcile.create_prices mk_price watch_remnants.

(** *** The catalogue listing

    [server k last_id] is what [get_product_list] returns at the [k]-th
    request of a run: the "result" object of the answer, or the exception
    of [raise_for_status]. *)
Record page : Set := Page {
  page_items : list dict;
  page_total : value;
  page_last_id : value }.

Section Listing.

Variable server : nat → value → result page.

Definition get_product_list (k : nat) (last_id : value) : result page :=
  server k last_id.

(** The [while True] loop of [get_offer_ids], run for at most [fuel]
    requests; [k] requests were made before.  [None]: the loop is still
    running.  Otherwise the outcome and the number of requests made. *)
Fixpoint listing (fuel k : nat) (last_id : value) (product_list : list dict)
  : option (result (list dict) * nat) :=
  match fuel with
  | O => None
  | Datatypes.S fuel' =>
      match get_product_list k last_id with
      | Raise e => Some (Raise e, Datatypes.S k)
      | Ok some_prod =>
          let product_list := product_list ++ page_items some_prod in
          if eq_int (page_total some_prod) (Z.of_nat (length product_list))
          then Some (Ok product_list, Datatypes.S k)
          else listing fuel' (Datatypes.S k) (page_last_id some_prod) product_list
      end
  end.

Definition get_offer_ids (fuel : nat) : option (result (list value) * nat) :=
  match listing fuel 0 (VStr "") [] with
  | None => None
  | Some (r, n) =>
      Some (bind r (λ product_list, Ok (map (get "offer_id") product_list)), n)
  end.

(** The run written out without the exit test: the argument of the
    [k]-th request and the products collected before it, as long as
    every earlier request was answered. *)
Fixpoint before (k : nat) : option (value * list dict) :=
  match k with
  | O => Some (VStr "", [])
  | Datatypes.S k' =>
      match before k' with
      | Some (last_id, product_list) =>
          match server k' last_id with
          | Ok some_prod =>
              Some (page_last_id some_prod, product_list ++ page_items some_prod)
          | Raise _ => None
          end
      | None => None
      end
  end.

(** The products collected once the [k]-th request is answered. *)
Definition collected (k : nat) : option (list dict) :=
  snd <$> before (Datatypes.S k).

(** The answer to the [k]-th request. *)
Definition answer (k : nat) : option (result page) :=
  match before k with
  | Some (last_id, _) => Some (server k last_id)
  | None => None
  end.

(** The termination signal at the [k]-th answer: the reported total
    equals the number of products collected. *)
Definition signal (k : nat) : bool :=
  match answer k, collected k with
  | Some (Ok some_prod), Some product_list =>
      eq_int (page_total some_prod) (Z.of_nat (length product_list))
  | _, _ => false
  end.

End Listing.

(** *** The feed loader

    The working directory is the set of its file names.  [response] is
    the outcome of the download up to [ZipFile(...)]: the member names of
    the archive, or the exception of the request or of opening the
    archive.  [read_excel] is the outcome of parsing "ostatki.xls" when the
    file is there. *)
Definition excel_file : string := "ostatki.xls".

Definition download_stock (response : result (list string))
  (read_excel : result (list dict)) (files : gset string)
  : result (list dict) * gset string :=
  match response with
  | Raise e => (Raise e, files)
  | Ok members =>
      (* archive.extractall(".") *)
      let files := list_to_set members ∪ files in
      if decide (excel_file ∈ files) then
        match read_excel with
        | Raise e => (Raise e, files)
        | Ok watch_remnants =>
            (* os.remove("./ostatki.xls") *)
            (Ok watch_remnants, files ∖ {[excel_file]})
        end
      else (Raise FileNotFoundError, files)
  end.

(** Lines 306 and 310 of [main]: both calls receive the same list object. *)
Definition main_payloads (watch_remnants : list dict)
  : M (list stock * list price) :=
  let* stocks := create_stocks watch_remnants in
  let* prices := create_prices watch_remnants in
  ret (stocks, prices).

End Seller.

(** ** market.py *)

Module Market.

Record item : Set := Item { count : Z; type : string; updatedAt : string }.

Record stock : Set := Stock {
  sku : string;
  warehouseId : string;
  items : list item }.

Record price_value : Set := PriceValue { value : Z; currencyId : string }.

Record price : Set := Price { id : string; price_price : price_value }.

(** The quantity of a stock payload: the count of its first item. *)
Definition quantity (s : stock) : option Z := count <$> head (items s).

(** The payload built at lines 183-195 and 199-211; [date] is the time
    stamp taken once at line 173. *)
Definition mk_stock (warehouse_id date : string) (offer_id : string)
  (quantity : Z) : stock :=
  Stock offer_id warehouse_id [Item quantity "FIT" date].

(** The payload built at lines 241-252. *)
Definition mk_price (watch : dict) : result price :=
  bind (Seller.price_conversion_cell (get "Цена" watch)) (λ p,
  bind (int (VStr p)) (λ v,
  Ok (Price (str (get "Код" watch)) (PriceValue v "RUR")))).

(** *** The catalogue listing

    [server k page] is what [get_product_list] returns at the [k]-th
    request of a run. *)
Record entry : Set := Entry { offer : option dict }.

Record product_page : Set := ProductPage {
  offerMappingEntries : list entry;
  paging : dict }.

Definition shopSku (product : entry) : result Py.value :=
  match offer product with
  | Some o => Ok (get "shopSku" o)
  | None => Raise AttributeError
  end.

Section Listing.

Variable server : nat → Py.value → result product_page.

Definition get_product_list (k : nat) (page : Py.value) : result product_page :=
  server k page.

(** The [while True] loop of [get_offer_ids], run for at most [fuel]
    requests; [k] requests were made before. *)
Fixpoint listing (fuel k : nat) (page : Py.value) (product_list : list entry)
  : option (result (list entry) * nat) :=
  match fuel with
  | O => None
  | Datatypes.S fuel' =>
      match get_product_list k page with
      | Raise e => Some (Raise e, Datatypes.S k)
      | Ok some_prod =>
          let product_list := product_list ++ offerMappingEntries some_prod in
          let page := get "nextPageToken" (paging some_prod) in
          if negb (truthy page)
          then Some (Ok product_list, Datatypes.S k)
          else listing fuel' (Datatypes.S k) page product_list
      end
  end.

Definition get_offer_ids (fuel : nat)
  : option (result (list Py.value) * nat) :=
  match listing fuel 0 (VStr "") [] with
  | None => None
  | Some (r, n) => Some (bind r (for_each shopSku), n)
  end.

(** The run written out without the exit test. *)
Fixpoint before (k : nat) : option (Py.value * list entry) :=
  match k with
  | O => Some (VStr "", [])
  | Datatypes.S k' =>
      match before k' with
      | Some (page, product_list) =>
          match server k' page with
          | Ok some_prod =>
              Some (get "nextPageToken" (paging some_prod),
                    product_list ++ offerMappingEntries some_prod)
          | Raise _ => None
          end
      | None => None
      end
  end.

Definition collected (k : nat) : option (list entry) :=
  snd <$> before (Datatypes.S k).

Definition answer (k : nat) : option (result product_page) :=
  match before k with
  | Some (page, _) => Some (server k page)
  | None => None
  end.

(** The termination signal at the [k]-th answer: its continuation token
    is empty or absent. *)
Definition signal (k : nat) : bool :=
  match answer k with
  | Some (Ok some_prod) =>
      negb (truthy (get "nextPageToken" (paging some_prod)))
  | _ => false
  end.

End Listing.

Definition create_stocks (date : string) (watch_remnants : list dict)
  (warehouse_id : string) : M (list stock) :=
  Reconcile.create_stocks (mk_stock warehouse_id date) watch_remnants.

Definition create_prices (watch_remnants : list dict) : M (list price) :=
  Reconcile.create_prices mk_price watch_remnants.

End Market.

(** ** Notions the properties are stated with *)

(** A feed row with the three columns the code reads. *)
Definition row (code quantity price : value) : dict :=
  <["Код" := code]> (<["Количество" := quantity]> (<["Цена" := price]> ∅)).

(** ** The words of the specification, for the price normaliser *)

Module Spec.

(** A decimal digit is one of the ten characters "0" .. "9". *)
Definition decimal_digit (c : ascii) : bool :=
  bool_decide (c ∈ list_ascii_of_string "0123456789").

(** [s] with every character that is not a decimal digit removed. *)
Definition digits_of (s : string) : string :=
  string_of_list_ascii (List.filter decimal_digit (list_ascii_of_string s)).

(** [s] contains no ".". *)
Definition dotless (s : string) : Prop :=
  "."%char ∉ list_ascii_of_string s.

End Spec.

(** The offer key of a feed row, [str(watch.get("Код"))]. *)
Definition code (watch : dict) : string := str (get "Код" watch).

(** The rows the first loop of [create_stocks] matches, and the identifiers
    it leaves in the list, when no quantity is rejected. *)
Fixpoint matched_rows (watch_remnants : list dict) (ids : list string)
  : list dict :=
  match watch_remnants with
  | [] => []
  | watch :: rest =>
      if bool_decide (code watch ∈ ids)
      then watch :: matched_rows rest (remove_first (code watch) ids)
      else matched_rows rest ids
  end.

Fixpoint remaining (watch_remnants : list dict) (ids : list string)
  : list string :=
  match watch_remnants with
  | [] => ids
  | watch :: rest =>
      if bool_decide (code watch ∈ ids)
      then remaining rest (remove_first (code watch) ids)
      else remaining rest ids
  end.

(** How often [x] is listed. *)
Definition occurrences (x : string) (l : list string) : nat :=
  length (filter (x =.) l).

(** The update of a matched row. *)
Definition emit {S} (mk_stock : string → Z → S) (watch : dict) : result S :=
  bind (Reconcile.stock_of watch) (λ q, Ok (mk_stock (code watch) q)).

(** The exit test of the Ozon loop, [total == len(product_list)], after the
    page is added to the products collected before. *)
Definition ozon_exit_test (product_list : list dict) (some_prod : Seller.page)
  : bool :=
  eq_int (Seller.page_total some_prod)
    (Z.of_nat (length (product_list ++ Seller.page_items some_prod))).

(** The exit test of the Yandex loop, [not page]. *)
Definition yandex_exit_test (some_prod : Market.product_page) : bool :=
  negb (truthy (get "nextPageToken" (Market.paging some_prod))).

(** The identifiers of [ids] that no feed row takes, [codes] being the codes
    of the feed rows: going through [ids] from the front, an identifier that
    is among the codes not yet taken is taken, together with one such code;
    any other identifier is left, in its place.  So of an identifier listed
    [c] times and carried by [f] rows, the first [min c f] occurrences are
    taken and the others left. *)
Fixpoint unmatched (ids codes : list string) : list string :=
  match ids with
  | [] => []
  | x :: ids' =>
      if bool_decide (x ∈ codes)
      then unmatched ids' (remove_first x codes)
      else x :: unmatched ids' codes
  end.

(** What [create_stocks] leaves in the list it was given, [ids'], against
    what it received, [ids]: the identifiers left keep their relative order;
    the updates are those of the matched rows followed by one per identifier
    left; the identifiers received are the matched ones and the ones left;
    when no identifier is listed twice, the ones left are exactly those that
    are the code of no feed row; and in every case they are the occurrences
    that no feed row takes. *)
Definition leaves_unmatched {S} (key : S → string) (feed : list dict)
  (ids : list string) (stocks : list S) (ids' : list string) : Prop :=
  ids' `sublist_of` ids
  ∧ (∃ matched zeros,
       stocks = matched ++ zeros
       ∧ map key zeros = ids'
       ∧ map key matched `sublist_of` map code feed
       ∧ ids ≡ₚ map key matched ++ ids')
  ∧ (NoDup ids → ids' = filter (λ x, x ∉ map code feed) ids)
  ∧ ids' = unmatched ids (map code feed).

(** What the claim of reconciliation holds of the updates: every identifier
    has as many stock updates as the list names it; a listed identifier has
    one price update per feed row with its code; a listed identifier that is
    the code of no feed row has stock updates of quantity 0 only, and no
    price update. *)
Definition reconciled {S P} (key : S → string) (qty : S → option Z)
  (pkey : P → string) (feed : list dict) (ids : list string)
  (stocks : list S) (prices : list P) : Prop :=
  (∀ x, occurrences x (map key stocks) = occurrences x ids)
  ∧ (∀ x, x ∈ ids →
       occurrences x (map pkey prices) = occurrences x (map code feed))
  ∧ (∀ x, x ∈ ids → x ∉ map code feed →
       (∀ s, s ∈ stocks → key s = x → qty s = Some 0)
       ∧ x ∉ map pkey prices)
  ∧ (NoDup ids → ∀ x, x ∈ ids →
       occurrences x (map key stocks) = 1%nat
       ∧ (occurrences x (map code feed) = 1%nat →
          occurrences x (map pkey prices) = 1%nat)).

(** The feed of the reconciliation example of the specification. *)
Definition feed_ab : list dict :=
  [row (VStr "A") (VStr ">10") (VStr "100.00");
   row (VStr "B") (VStr "1") (VStr "50.00")].

(** Two rows with the same code. *)
Definition feed_twice : list dict :=
  [row (VStr "A") (VInt 5) (VStr "10.00");
   row (VStr "A") (VInt 7) (VStr "20.00")].

(** Two calls in a row on the same list object. *)
Definition twice {A} (m : M A) : M (A * A) :=
  let* a := m in
  let* b := m in
  ret (a, b).

(** The stock-quantisation rule at a row [watch] that [create] reaches with
    its code among the identifiers still in the list: [before] and [ids1] are
    what [create] returns and leaves on the rows [pre] in front of it. *)
Definition quantized {S} (create : list dict → M (list S))
  (mk : string → Z → S) : Prop :=
  ∀ pre watch post ids before ids1,
    create pre ids = (Ok before, ids1) →
    code watch ∈ ids1 →
    let count := str (get "Количество" watch) in
    (∀ stocks ids', create (pre ++ watch :: post) ids = (Ok stocks, ids') →
       ∃ q, stocks !! (length before - length ids1)%nat
            = Some (mk (code watch) q)
            ∧ (count = ">10" → q = 100)
            ∧ (count = "1" → q = 0)
            ∧ (count ≠ ">10" → count ≠ "1" →
               int (get "Количество" watch) = Ok q))
    ∧ (∀ e, count ≠ ">10" → count ≠ "1" →
         int (get "Количество" watch) = Raise e →
         fst (create (pre ++ watch :: post) ids) = Raise e).

(** Two outcomes of [create_stocks] with the same matched updates, in the
    same order, followed by the zero updates of two lists of identifiers that
    are permutations of each other; or the same exception. *)
Definition same_updates {S} (zero : string → S) (r r' : result (list S))
  : Prop :=
  match r, r' with
  | Ok s, Ok s' =>
      ∃ matched rest rest',
        s = matched ++ map zero rest
        ∧ s' = matched ++ map zero rest'
        ∧ rest ≡ₚ rest'
  | Raise e, Raise e' => e = e'
  | _, _ => False
  end.

(** A stock payload of [market.py] without its time stamp. *)
Definition untimed (stock : Market.stock) : string * string * list (Z * string) :=
  (Market.sku stock, Market.warehouseId stock,
   map (λ item, (Market.count item, Market.type item)) (Market.items stock)).

(** [f] applied to what a computation returns. *)
Definition on_ok {A B} (f : A → B) (r : result A) : result B :=
  match r with
  | Ok a => Ok (f a)
  | Raise e => Raise e
  end.

(** The loop leaves after [n] requests, within [fuel] requests, because the
    signal occurs at the last answer and at none before it. *)
Definition first_signal (signal : nat → bool) (fuel n : nat) : Prop :=
  ∃ k, n = Datatypes.S k ∧ (k < fuel)%nat ∧ signal k = true
       ∧ ∀ j, (j < k)%nat → signal j = false.

(** The first [fuel] requests are all answered with a page, and none of
    these pages carries the signal. *)
Definition no_signal {A} (signal : nat → bool) (before : nat → option A)
  (fuel : nat) : Prop :=
  ∀ j, (j < fuel)%nat → signal j = false ∧ is_Some (before (Datatypes.S j)).

(** A paging loop [listing], given its fuel, against the signal of its
    marketplace: it leaves normally after [n] requests exactly when the
    signal occurs at the [n]-th answer for the first time, with the products
    collected up to that answer; it is still running after [fuel] requests
    exactly when these were all answered without the signal; and once the
    signal occurs at some answer, enough fuel makes it return. *)
Definition terminates_on_signal {R A} (listing : nat → option (result R * nat))
  (signal : nat → bool) (before : nat → option A)
  (collected : nat → option R) : Prop :=
  (∀ fuel r n,
     listing fuel = Some (Ok r, n)
     ↔ first_signal signal fuel n ∧ collected (pred n) = Some r)
  ∧ (∀ fuel, listing fuel = None ↔ no_signal signal before fuel)
  ∧ (∀ k, signal k = true →
       ∃ n r, (n ≤ Datatypes.S k)%nat
              ∧ ∀ fuel, (n ≤ fuel)%nat → listing fuel = Some (Ok r, n)).

(** A server that lists three products on two pages. *)
Definition ozon_two_pages (k : nat) (last_id : value) : result Seller.page :=
  match k with
  | O => Ok (Seller.Page [{["offer_id" := VStr "A"]}; {["offer_id" := VStr "B"]}]
               (VInt 3) (VStr "p1"))
  | _ => Ok (Seller.Page [{["offer_id" := VStr "C"]}] (VInt 3) (VStr ""))
  end.

(** ** Pushing the payloads in batches

    [update k batch] is what the marketplace does with the [k]-th push of a
    run: [raise_for_status] lets it pass or raises.  The callers drop the
    answer. *)

Section Push.

Context {A : Type}.
Variable update : nat → list A → result unit.

(** [for batch in batches: update(batch)], from the [k]-th push on: the
    batches pushed, the last of which is the one that raised, and the
    exception. *)
Fixpoint push_from (k : nat) (batches : list (list A))
  : list (list A) * option exn :=
  match batches with
  | [] => ([], None)
  | batch :: rest =>
      match update k batch with
      | Raise e => ([batch], Some e)
      | Ok _ =>
          let '(pushed, raised) := push_from (Datatypes.S k) rest in
          (batch :: pushed, raised)
      end
  end.

(** [for batch in list(divide(lst, n)): update(batch)]: [list] runs the
    generator to its end before the first push. *)
Definition push_batches (lst : list A) (n : Z) : list (list A) * option exn :=
  match Seller.divide lst n with
  | Gen chunks None => push_from 0 chunks
  | Gen _ (Some e) => ([], Some e)
  end.

End Push.

(** ** seller.py: the upload functions and [main]

    [offer_ids] is the outcome of [get_offer_ids], [download_stock] the
    outcome of the feed loader.  The bodies of the [async] functions are
    what runs when they are awaited. *)

Module SellerDriver.

(** [upload_prices]: what it returns, and the batches pushed. *)
Definition upload_prices (update_price : nat → list Seller.price → result unit)
  (watch_remnants : list dict) (offer_ids : result (list string))
  : result (list Seller.price) * list (list Seller.price) :=
  match offer_ids with
  | Raise e => (Raise e, [])
  | Ok offer_ids =>
      match Seller.create_prices watch_remnants offer_ids with
      | (Raise e, _) => (Raise e, [])
      | (Ok prices, _) =>
          match push_batches update_price prices 1000 with
          | (pushed, Some e) => (Raise e, pushed)
          | (pushed, None) => (Ok prices, pushed)
          end
      end
  end.

(** [upload_stocks]: it returns [(not_empty, stocks)]. *)
Definition upload_stocks (update_stocks : nat → list Seller.stock → result unit)
  (watch_remnants : list dict) (offer_ids : result (list string))
  : result (list Seller.stock * list Seller.stock) * list (list Seller.stock) :=
  match offer_ids with
  | Raise e => (Raise e, [])
  | Ok offer_ids =>
      match Seller.create_stocks watch_remnants offer_ids with
      | (Raise e, _) => (Raise e, [])
      | (Ok stocks, _) =>
          match push_batches update_stocks stocks 100 with
          | (pushed, Some e) => (Raise e, pushed)
          | (pushed, None) =>
              let not_empty :=
                filter (λ stock, Seller.stock_stock stock ≠ 0) stocks in
              (Ok (not_empty, stocks), pushed)
          end
      end
  end.

(** A run of [main]: the stock batches and the price batches pushed, and the
    exception the [except] clauses caught and printed, if any. *)
Record run : Type := Run {
  stock_pushes : list (list Seller.stock);
  price_pushes : list (list Seller.price);
  caught : option exn }.

(** The [try] block of [main], lines 303-312.  [create_prices] receives the
    list object [create_stocks] was given, as [create_stocks] left it. *)
Definition main (offer_ids : result (list string))
  (download_stock : result (list dict))
  (update_stocks : nat → list Seller.stock → result unit)
  (update_price : nat → list Seller.price → result unit) : run :=
  match offer_ids with
  | Raise e => Run [] [] (Some e)
  | Ok offer_ids =>
      match download_stock with
      | Raise e => Run [] [] (Some e)
      | Ok watch_remnants =>
          match Seller.create_stocks watch_remnants offer_ids with
          | (Raise e, _) => Run [] [] (Some e)
          | (Ok stocks, offer_ids) =>
              match push_batches update_stocks stocks 100 with
              | (pushed, Some e) => Run pushed [] (Some e)
              | (pushed, None) =>
                  match Seller.create_prices watch_remnants offer_ids with
                  | (Raise e, _) => Run pushed [] (Some e)
                  | (Ok prices, _) =>
                      let '(priced, raised) :=
                        push_batches update_price prices 900 in
                      Run pushed priced raised
                  end
              end
          end
      end
  end.

End SellerDriver.

(** ** market.py: the upload functions *)

Module MarketDriver.

Definition upload_prices (update_price : nat → list Market.price → result unit)
  (watch_remnants : list dict) (offer_ids : result (list string))
  : result (list Market.price) * list (list Market.price) :=
  match offer_ids with
  | Raise e => (Raise e, [])
  | Ok offer_ids =>
      match Market.create_prices watch_remnants offer_ids with
      | (Raise e, _) => (Raise e, [])
      | (Ok prices, _) =>
          match push_batches update_price prices 500 with
          | (pushed, Some e) => (Raise e, pushed)
          | (pushed, None) => (Ok prices, pushed)
          end
      end
  end.

(** [stock.get("items")[0].get("count") != 0]; indexing an empty list
    raises. *)
Definition counted (stock : Market.stock) : result bool :=
  bind (index (Market.items stock) 0) (λ item,
  Ok (negb (Market.count item =? 0))).

(** [list(filter(f, l))] for a test that can raise. *)
Fixpoint filter_each {A} (f : A → result bool) (l : list A) : result (list A) :=
  match l with
  | [] => Ok []
  | x :: l' =>
      bind (f x) (λ keep,
      bind (filter_each f l') (λ kept,
      Ok (if keep : bool then x :: kept else kept)))
  end.

Definition upload_stocks (date : string)
  (update_stocks : nat → list Market.stock → result unit)
  (watch_remnants : list dict) (offer_ids : result (list string))
  (warehouse_id : string)
  : result (list Market.stock * list Market.stock) * list (list Market.stock) :=
  match offer_ids with
  | Raise e => (Raise e, [])
  | Ok offer_ids =>
      match Market.create_stocks date watch_remnants warehouse_id offer_ids with
      | (Raise e, _) => (Raise e, [])
      | (Ok stocks, _) =>
          match push_batches update_stocks stocks 2000 with
          | (pushed, Some e) => (Raise e, pushed)
          | (pushed, None) =>
              match filter_each counted stocks with
              | Raise e => (Raise e, pushed)
              | Ok not_empty => (Ok (not_empty, stocks), pushed)
              end
          end
      end
  end.

End MarketDriver.

(** ** Notions the further properties are stated with *)

(** The updates name listed identifiers only; the prices, moreover, codes of
    the feed. *)
Definition within {S P} (key : S → string) (pkey : P → string)
  (feed : list dict) (ids : list string) (stocks : list S) (prices : list P)
  : Prop :=
  (∀ s, s ∈ stocks → key s ∈ ids)
  ∧ (∀ p, p ∈ prices → pkey p ∈ ids ∧ pkey p ∈ map code feed)
  ∧ length stocks = length ids.

(** A price payload of [seller.py] as [create_prices] builds it. *)
Definition seller_price_shape (p : Seller.price) : Prop :=
  Seller.auto_action_enabled p = "UNKNOWN"
  ∧ Seller.currency_code p = "RUB"
  ∧ Seller.old_price p = "0"
  ∧ Forall (λ c, is_digit c = true) (list_ascii_of_string (Seller.price_price p)).

(** The example of the docstring of [create_prices]. *)
Definition docstring_feed : list dict :=
  [<["Код" := VInt 123]> (<["Цена" := VStr "5'990.00"]> ∅);
   <["Код" := VInt 456]> (<["Цена" := VStr "7'500.00"]> ∅)].

(** What a push loop over [batches] does: without an exception every batch
    was pushed, in order, and accepted; with an exception the batches up to
    the one that raised were pushed, those before it were accepted, and none
    after it was pushed. *)
Definition pushes_of {A} (update : nat → list A → result unit)
  (batches pushed : list (list A)) (raised : option exn) : Prop :=
  match raised with
  | None =>
      pushed = batches
      ∧ ∀ i b, batches !! i = Some b → update i b = Ok tt
  | Some e =>
      ∃ j b, pushed = take (Datatypes.S j) batches
             ∧ batches !! j = Some b
             ∧ update j b = Raise e
             ∧ ∀ i b', (i < j)%nat → batches !! i = Some b' →
                 update i b' = Ok tt
  end.

(** What [upload_stocks] returns as [not_empty], against the feed and all
    the stock updates: it is a sub-list of the updates, and each of its
    elements has a quantity other than 0 and the code of a feed row. *)
Definition stocked {S} (key : S → string) (qty : S → option Z)
  (feed : list dict) (stocks not_empty : list S) : Prop :=
  not_empty `sublist_of` stocks
  ∧ ∀ s, s ∈ not_empty → qty s ≠ Some 0 ∧ key s ∈ map code feed.


(** A server that reports a total of 1 and sends two products per page. *)
Definition ozon_overshoot (k : nat) (last_id : value) : result Seller.page :=
  Ok (Seller.Page [{["offer_id" := VStr "A"]}; {["offer_id" := VStr "B"]}]
        (VInt 1) (VStr "next")).

(** * Properties *)

(** ** [int] reads back what [str] prints *)

Lemma int_digits_acc d : ∀ acc,
  int_digits true (Z.pos acc) (NilEmpty.string_of_uint d)
  = Some (Z.pos (Pos.of_uint_acc d acc)).
Proof.
  induction d; intros acc;
    cbn [NilEmpty.string_of_uint int_digits Pos.of_uint_acc]; [done|..];
    change (is_digit _) with true; cbv iota;
    match goal with
    | |- int_digits true ?z _ = Some (Z.pos (Pos.of_uint_acc _ ?p)) =>
        replace z with (Z.pos p) by (unfold digit_value; cbn; lia)
    end; apply IHd.
Qed.

Lemma int_digits_uint d : ∀ b,
  d ≠ Decimal.Nil ∨ b = true →
  int_digits b 0 (NilEmpty.string_of_uint d) = Some (Z.of_N (Pos.of_uint d)).
Proof.
  induction d; intros b Hb; cbn [NilEmpty.string_of_uint int_digits Pos.of_uint].
  1: by destruct Hb as [?| ->].
  1: { change (is_digit _) with true. cbv iota.
       change (10 * 0 + digit_value "0") with 0. apply IHd. by right. }
  all: change (is_digit _) with true; cbv iota;
    match goal with
    | |- int_digits true ?z _ = _ =>
        let p := eval cbv in (Z.to_pos z) in change z with (Z.pos p)
    end; by rewrite int_digits_acc.
Qed.

Lemma lstrip_id c s : is_space c = false → lstrip (String c s) = String c s.
Proof. intros H. cbn. by rewrite H. Qed.

Lemma rstrip_id s :
  Forall (λ c, is_space c = false) (list_ascii_of_string s) → rstrip s = s.
Proof.
  induction s as [|c s IH]; cbn; [done|].
  intros [Hc Hs]%Forall_cons. rewrite (IH Hs), Hc. by destruct s.
Qed.

Lemma string_of_uint_digits d :
  Forall (λ c, is_space c = false ∧ is_digit c = true)
    (list_ascii_of_string (NilEmpty.string_of_uint d)).
Proof. induction d; cbn; constructor; done. Qed.

Lemma int_of_string_uint d :
  d ≠ Decimal.Nil →
  int_of_string (NilEmpty.string_of_uint d) = Ok (Z.of_N (Pos.of_uint d))
  ∧ int_of_string (String "-" (NilEmpty.string_of_uint d))
    = Ok (- Z.of_N (Pos.of_uint d)).
Proof.
  intros Hd.
  pose proof (int_digits_uint d false (or_introl Hd)) as Hdigits.
  assert (Forall (λ c, is_space c = false)
            (list_ascii_of_string (NilEmpty.string_of_uint d))) as Hsp.
  { eapply Forall_impl; [apply string_of_uint_digits|]. by intros c [? _]. }
  unfold int_of_string, strip. split.
  - destruct d; [done|..]; cbn [NilEmpty.string_of_uint] in *;
      (rewrite lstrip_id by done; rewrite rstrip_id by done;
       cbv iota beta; rewrite Hdigits; f_equal; try lia).
  - rewrite lstrip_id by done.
    rewrite rstrip_id by (constructor; done).
    cbv iota beta. rewrite Hdigits. f_equal; try lia.
Qed.

Lemma int_str_round_trip z : int_of_string (str (VInt z)) = Ok z.
Proof.
  destruct z as [|p|p]; [done|..]; cbn [str Z.to_int NilZero.string_of_int];
    pose proof (Unsigned.to_uint_nonnil p) as Hnil;
    pose proof (Unsigned.of_to p) as Hp;
    destruct (int_of_string_uint _ Hnil) as [Hpos Hneg];
    unfold NilZero.string_of_uint;
    destruct (Pos.to_uint p) eqn:E; try done;
    rewrite ?Hpos, ?Hneg, Hp; done.
Qed.

(** ** Price normaliser *)

Lemma is_digit_decimal_digit c : is_digit c = Spec.decimal_digit c.
Proof. destruct c as [[] [] [] [] [] [] [] []]; reflexivity. Qed.

Lemma re_sub_outside_digits s :
  re_sub_outside "0" "9" s = Spec.digits_of s.
Proof.
  unfold Spec.digits_of. induction s as [|c s IH]; [reflexivity|].
  cbn [re_sub_outside list_ascii_of_string List.filter].
  rewrite <- is_digit_decimal_digit. unfold is_digit.
  change (N_of_ascii "0") with 48%N. change (N_of_ascii "9") with 57%N.
  destruct (_ && _); cbn [string_of_list_ascii]; by rewrite IH.
Qed.

(** [split] never returns the empty list, its first element has no
    separator in it, and the string is that element alone or that element,
    the separator and a rest. *)
Lemma split_head sep s :
  ∃ h t, split sep s = h :: t
         ∧ (sep ∉ list_ascii_of_string h)
         ∧ (s = h ∨ ∃ rest, s = (h ++ String sep rest)%string).
Proof.
  induction s as [|c s (h & t & E & Hno & Hs)]; cbn [split].
  - exists EmptyString, []. split; [done|]. split; [|by left].
    cbn. apply not_elem_of_nil.
  - destruct (Ascii.eqb_spec c sep) as [->|Hne].
    + exists EmptyString, (split sep s). split; [done|]. split.
      * cbn. apply not_elem_of_nil.
      * right. by exists s.
    + rewrite E. exists (String c h), t. split; [done|]. split.
      * cbn. rewrite elem_of_cons. intros [->|?]; [done|]. by apply Hno.
      * destruct Hs as [->|[rest ->]]; [by left|]. right. by exists rest.
Qed.

Lemma price_conversion_whole price :
  ∃ whole, Seller.price_conversion price = Ok (Spec.digits_of whole)
           ∧ Spec.dotless whole
           ∧ (price = whole ∨ ∃ frac, price = (whole ++ String "." frac)%string).
Proof.
  destruct (split_head "." price) as (h & t & E & Hno & Hs).
  exists h. unfold Seller.price_conversion. rewrite E. cbn.
  by rewrite re_sub_outside_digits.
Qed.

(** The decomposition of a string around its first "." is unique. *)
Lemma dotless_prefix_unique a b x y :
  Spec.dotless a → Spec.dotless b →
  (a ++ String "." x)%string = (b ++ String "." y)%string → a = b.
Proof.
  unfold Spec.dotless. revert b.
  induction a as [|c a IH]; intros [|d b] Ha Hb E; cbn in *.
  - done.
  - injection E as <- _. exfalso. apply Hb. by left.
  - injection E as -> _. exfalso. apply Ha. by left.
  - injection E as -> E. f_equal. apply IH; [| |done].
    + intros ?. apply Ha. by right.
    + intros ?. apply Hb. by right.
Qed.

Lemma dotless_no_split a x :
  Spec.dotless (a ++ String "." x)%string → False.
Proof.
  unfold Spec.dotless. induction a as [|c a IH]; cbn; intros H.
  - apply H. by left.
  - apply IH. intros ?. apply H. by right.
Qed.

Ltac solve_dotless :=
  let H := fresh in
  unfold Spec.dotless; cbn; intros H;
  repeat (apply elem_of_cons in H as [H|H]; [discriminate H|]);
  by apply elem_of_nil in H.

(** [C5] For every input string, [price_conversion] returns the part before
    the first "." with every character that is not a decimal digit removed;
    without a "." the whole string is that part; whatever follows the first
    "." is dropped, never rounded.  In particular "5'990.00 руб." gives
    "5990", "123" gives "123" and "1.99" gives "1". *)
Theorem price_conversion_spec :
  (∀ whole frac, Spec.dotless whole →
     Seller.price_conversion (whole ++ String "." frac) = Ok (Spec.digits_of whole))
  ∧ (∀ price, Spec.dotless price →
       Seller.price_conversion price = Ok (Spec.digits_of price))
  ∧ Seller.price_conversion "5'990.00 руб." = Ok "5990"
  ∧ Seller.price_conversion "123" = Ok "123"
  ∧ Seller.price_conversion "1.99" = Ok "1".
Proof.
  split; [|split; [|by vm_compute]].
  - intros whole frac Hw.
    destruct (price_conversion_whole (whole ++ String "." frac))
      as (w & -> & Hno & [E|[f E]]).
    + exfalso. rewrite <- E in Hno. by eapply dotless_no_split.
    + by rewrite (dotless_prefix_unique _ _ _ _ Hw Hno E).
  - intros price Hp.
    destruct (price_conversion_whole price) as (w & -> & Hno & [E|[f E]]).
    + by rewrite E.
    + exfalso. rewrite E in Hp. by eapply dotless_no_split.
Qed.

Lemma price_conversion_spec_witness :
  Seller.price_conversion ("5'990" ++ String "." "00 руб.") = Ok "5990"
  ∧ Seller.price_conversion "7 500" = Ok "7500".
Proof.
  split.
  - apply (proj1 price_conversion_spec "5'990" "00 руб."). solve_dotless.
  - apply (proj1 (proj2 price_conversion_spec) "7 500"). solve_dotless.
Defined.

(** ** Batch splitter *)

Lemma range_len_pos len n :
  0 < n → 0 <= len → range_len 0 len n = (len + n - 1) / n.
Proof.
  intros Hn Hlen. unfold range_len.
  destruct (Z.ltb_spec 0 n); [|lia].
  destruct (Z.ltb_spec 0 len).
  - replace (len + n - 1) with (len - 0 - 1 + 1 * n) by lia.
    rewrite Z.div_add by lia. lia.
  - assert (len = 0) as -> by lia.
    symmetry. apply Z.div_small. lia.
Qed.

Lemma slice_from_to {A} (l : list A) (i j : nat) :
  (i ≤ j)%nat →
  slice l (Z.of_nat i) (Z.of_nat j) = take (j - i) (drop i l).
Proof.
  intros Hij. unfold slice, clamp.
  destruct (Z.ltb_spec (Z.of_nat i) 0); [lia|].
  destruct (Z.ltb_spec (Z.of_nat j) 0); [lia|].
  destruct (decide (length l ≤ i)%nat) as [Hi|Hi].
  - rewrite (drop_ge l i) by done. rewrite take_nil.
    rewrite drop_ge by lia. apply take_nil.
  - replace (Z.to_nat (Z.max 0 (Z.min (Z.of_nat (length l)) (Z.of_nat i))))
      with i by lia.
    destruct (decide (j ≤ length l)%nat).
    + f_equal. lia.
    + rewrite !take_ge; [done| |]; rewrite length_drop; lia.
Qed.

(** The chunks as [divide] yields them for a positive [n]. *)
Lemma divide_pos {A} (lst : list A) (n : Z) :
  0 < n →
  Seller.divide lst n =
    Gen (map (λ k : nat, take (Z.to_nat n) (drop (k * Z.to_nat n) lst))
           (seq 0 (Z.to_nat ((Z.of_nat (length lst) + n - 1) / n))))
        None.
Proof.
  intros Hn. unfold Seller.divide, range.
  destruct (Z.eqb_spec n 0); [lia|].
  rewrite range_len_pos by lia. rewrite map_map. f_equal.
  apply map_ext. intros k.
  replace (0 + Z.of_nat k * n) with (Z.of_nat (k * Z.to_nat n)) by lia.
  replace (Z.of_nat (k * Z.to_nat n) + n)
    with (Z.of_nat (k * Z.to_nat n + Z.to_nat n)) by lia.
  rewrite slice_from_to by lia. f_equal. lia.
Qed.

Lemma concat_chunks {A} (n m : nat) (l : list A) :
  (0 < n)%nat → (length l ≤ m * n)%nat →
  concat (map (λ k : nat, take n (drop (k * n) l)) (seq 0 m)) = l.
Proof.
  intros Hn. revert l. induction m as [|m IH]; intros l Hl.
  - destruct l; [done|]. cbn in Hl. lia.
  - cbn [seq map concat]. rewrite <- seq_shift, map_map. cbn [Nat.mul Nat.add].
    rewrite drop_0.
    transitivity (take n l ++ drop n l); [|apply take_drop]. f_equal.
    etransitivity; [|apply (IH (drop n l)); rewrite length_drop; lia].
    f_equal. apply map_ext. intros k. by rewrite drop_drop.
Qed.

(** The number of chunks and the length of the last one, in terms of the
    quotient and the remainder of the length by [n]. *)
Lemma chunk_count_bounds len n :
  0 < n → 0 <= len →
  let m := (len + n - 1) / n in
  n * (m - 1) <= len - 1 < n * m ∨ (len = 0 ∧ m = 0).
Proof.
  intros Hn Hlen m.
  pose proof (Z.mul_div_le (len + n - 1) n Hn).
  pose proof (Z.mul_succ_div_gt (len + n - 1) n Hn).
  fold m in H, H0. lia.
Qed.

Lemma last_chunk_length len n m :
  0 < n → n * (m - 1) <= len - 1 < n * m →
  Z.min n (len - (m - 1) * n) = if len mod n =? 0 then n else len mod n.
Proof.
  intros Hn Hm.
  pose proof (Z.div_mod len n ltac:(lia)) as Hdm.
  pose proof (Z.mod_pos_bound len n Hn) as Hr.
  destruct (Z.eqb_spec (len mod n) 0) as [E|E].
  - rewrite E in Hdm. assert (m = len / n) by nia. nia.
  - assert (m = len / n + 1) by nia. nia.
Qed.

(** [C4] For every list and every positive [n], [divide] yields contiguous
    chunks of the list in order, each of length [n] except possibly the
    last, which holds [len % n] items, or [n] when [n] divides the length;
    the chunks cover every element exactly once.  A list of 2500 elements
    with [n = 1000] gives chunks of sizes 1000, 1000, 500. *)
Theorem divide_chunks :
  (∀ (A : Type) (lst : list A) (n : Z), 0 < n →
     let chunks := yielded (Seller.divide lst n) in
     let len := Z.of_nat (length lst) in
     raised (Seller.divide lst n) = None
     ∧ concat chunks = lst
     ∧ Z.of_nat (length chunks) = (len + n - 1) / n
     ∧ ∀ (k : nat) (chunk : list A), chunks !! k = Some chunk →
         chunk = take (Z.to_nat n) (drop (k * Z.to_nat n) lst)
         ∧ (S k < length chunks → Z.of_nat (length chunk) = n)%nat
         ∧ (S k = length chunks →
            Z.of_nat (length chunk) = if len mod n =? 0 then n else len mod n))
  ∧ (let g := Seller.divide (seq 1 2500) 1000 in
     raised g = None
     ∧ map length (yielded g) = [1000; 1000; 500]%nat
     ∧ concat (yielded g) = seq 1 2500).
Proof.
  split; [|by vm_compute].
  intros A lst n Hn chunks len. subst chunks.
  rewrite divide_pos by done. cbn [yielded raised]. fold len.
  assert (0 <= len) as Hlen by lia.
  pose proof (chunk_count_bounds len n Hn Hlen) as Hm. cbv zeta in Hm.
  set (m := (len + n - 1) / n) in *.
  assert (0 <= m) as Hm0 by (apply Z.div_pos; lia).
  split; [done|]. split; [|split].
  - apply concat_chunks; [lia|]. nia.
  - rewrite length_map, length_seq. lia.
  - intros k chunk Hk. rewrite length_map, length_seq.
    rewrite list_lookup_fmap in Hk.
    destruct (seq 0 (Z.to_nat m) !! k) as [k'|] eqn:Hseq; [|done].
    apply lookup_seq in Hseq as [-> Hlt]. cbn in Hk.
    injection Hk as <-. split; [done|].
    rewrite length_take, length_drop.
    destruct Hm as [Hm|[_ Hm]]; [|lia].
    split; intros Hlast.
    + nia.
    + rewrite <- (last_chunk_length len n m) by done.
      assert (Z.of_nat k = m - 1) as Hk' by lia. nia.
Qed.

Lemma divide_chunks_witness :
  concat (yielded (Seller.divide ["a"; "b"; "c"; "d"; "e"] 2))
  = ["a"; "b"; "c"; "d"; "e"].
Proof.
  assert (0 < 2) as H by lia.
  exact (proj1 (proj2 (proj1 divide_chunks string ["a"; "b"; "c"; "d"; "e"] 2 H))).
Defined.

(** [C8] With [n = 0], [divide] raises before it yields any chunk; with a
    negative [n] and a non-empty list it yields no chunk and raises nothing:
    every element is dropped in silence. *)
Theorem divide_nonpositive :
  (∀ (A : Type) (lst : list A),
     Seller.divide lst 0 = Gen [] (Some ValueError))
  ∧ (∀ (A : Type) (lst : list A) (n : Z), n < 0 → lst ≠ [] →
       Seller.divide lst n = Gen [] None
       ∧ concat (yielded (Seller.divide lst n)) ≠ lst).
Proof.
  split; [done|].
  intros A lst n Hn Hne.
  assert (Seller.divide lst n = Gen [] None) as ->; [|by split].
  unfold Seller.divide, range, range_len.
  destruct (Z.eqb_spec n 0); [lia|].
  destruct (Z.ltb_spec 0 n); [lia|].
  destruct (Z.ltb_spec (Z.of_nat (length lst)) 0); [lia|]. done.
Qed.

Lemma divide_nonpositive_witness :
  Seller.divide ["a"; "b"; "c"] (-2) = Gen [] None.
Proof.
  assert (-2 < 0) as H by lia.
  assert (["a"; "b"; "c"] ≠ []) as Hne by discriminate.
  exact (proj1 (proj2 divide_nonpositive string ["a"; "b"; "c"] (-2) H Hne)).
Defined.

(** ** Feed reconciliation *)

Lemma remove_first_perm x l : x ∈ l → l ≡ₚ x :: remove_first x l.
Proof.
  induction l as [|y l IH]; intros Hx; [by apply elem_of_nil in Hx|].
  cbn. destruct (decide (y = x)) as [->|Hne]; [done|].
  apply elem_of_cons in Hx as [->|Hx]; [done|].
  rewrite (IH Hx) at 1. apply Permutation_swap.
Qed.

Lemma remove_first_sublist x l : remove_first x l `sublist_of` l.
Proof.
  induction l as [|y l IH]; [done|]. cbn.
  destruct (decide (y = x)); [by apply sublist_cons|by apply sublist_skip].
Qed.

Lemma filter_ext_elem {A} (P Q : A → Prop)
    `{!∀ x, Decision (P x), !∀ x, Decision (Q x)} (l : list A) :
  (∀ x, x ∈ l → P x ↔ Q x) → filter P l = filter Q l.
Proof.
  induction l as [|a l IH]; intros Hl; [done|].
  rewrite !filter_cons.
  rewrite IH by (intros x Hx; apply Hl; by right).
  apply decide_ext, Hl. by left.
Qed.

Lemma filter_all {A} (P : A → Prop) `{!∀ x, Decision (P x)} (l : list A) :
  (∀ x, x ∈ l → P x) → filter P l = l.
Proof.
  induction l as [|a l IH]; intros Hl; [done|].
  rewrite filter_cons_True by (apply Hl; by left).
  f_equal. apply IH. intros x Hx. apply Hl. by right.
Qed.

Lemma remove_first_NoDup x l :
  NoDup l → remove_first x l = filter (λ y, y ≠ x) l.
Proof.
  induction 1 as [|y l Hy Hl IH]; [done|]. cbn [remove_first].
  destruct (decide (y = x)) as [->|Hne].
  - rewrite filter_cons_False by naive_solver.
    symmetry. apply filter_all. by intros z Hz ->.
  - rewrite filter_cons_True by done. by rewrite IH.
Qed.

Lemma matched_remaining_perm ws ids :
  ids ≡ₚ map code (matched_rows ws ids) ++ remaining ws ids.
Proof.
  revert ids. induction ws as [|w ws IH]; intros ids; cbn; [done|].
  case_bool_decide as Hin; [|apply IH].
  cbn. rewrite <- IH. by apply remove_first_perm.
Qed.

Lemma remaining_sublist ws ids : remaining ws ids `sublist_of` ids.
Proof.
  revert ids. induction ws as [|w ws IH]; intros ids; cbn; [done|].
  case_bool_decide; [|apply IH].
  etransitivity; [apply IH|apply remove_first_sublist].
Qed.

Lemma matched_rows_sublist ws ids : matched_rows ws ids `sublist_of` ws.
Proof.
  revert ids. induction ws as [|w ws IH]; intros ids; cbn; [done|].
  case_bool_decide; [apply sublist_skip|apply sublist_cons]; apply IH.
Qed.

Lemma remaining_NoDup ws ids :
  NoDup ids → remaining ws ids = filter (λ x, x ∉ map code ws) ids.
Proof.
  revert ids. induction ws as [|w ws IH]; intros ids Hnd; cbn [remaining map].
  - symmetry. apply filter_all. intros x _. apply not_elem_of_nil.
  - case_bool_decide as Hin.
    + rewrite IH by (eapply sublist_NoDup; [done|apply remove_first_sublist]).
      rewrite remove_first_NoDup by done. rewrite list_filter_filter.
      apply list_filter_iff. intros x. rewrite not_elem_of_cons. by split; intros [? ?].
    + rewrite IH by done. apply filter_ext_elem. intros x Hx.
      rewrite not_elem_of_cons.
  split; [intros ?; split; [by intros ->|done]|by intros [_ ?]].
Qed.

Lemma unmatched_no_codes ids : unmatched ids [] = ids.
Proof.
  induction ids as [|x ids IH]; [done|]. cbn [unmatched].
  rewrite bool_decide_false by apply not_elem_of_nil. by rewrite IH.
Qed.

Lemma remove_first_cons_ne x c codes :
  x ≠ c → remove_first x (c :: codes) = c :: remove_first x codes.
Proof. intros Hne. cbn. by rewrite decide_False by (by intros ->). Qed.

Lemma bool_decide_elem_cons_ne (x c : string) codes :
  x ≠ c → bool_decide (x ∈ c :: codes) = bool_decide (x ∈ codes).
Proof.
  intros Hne. apply bool_decide_ext. rewrite elem_of_cons.
  split; [by intros [?|?]|by right].
Qed.

(** A feed row more, with a code that is listed: one occurrence more is
    taken, the first that is left. *)
Lemma unmatched_cons_elem c ids : ∀ codes,
  c ∈ ids →
  unmatched ids (c :: codes) = unmatched (remove_first c ids) codes.
Proof.
  induction ids as [|x ids IH]; intros codes Hc; [by apply elem_of_nil in Hc|].
  destruct (decide (x = c)) as [->|Hne].
  - cbn [unmatched]. rewrite bool_decide_true by by left.
    cbn [remove_first]. by rewrite !decide_True.
  - apply elem_of_cons in Hc as [->|Hc]; [done|].
    rewrite (remove_first_cons_ne c x ids) by done.
    cbn [unmatched]. rewrite bool_decide_elem_cons_ne by done.
    case_bool_decide.
    + rewrite remove_first_cons_ne by done. by apply IH.
    + f_equal. by apply IH.
Qed.

(** A feed row more, with a code that is not listed, takes nothing. *)
Lemma unmatched_cons_not c ids : ∀ codes,
  c ∉ ids → unmatched ids (c :: codes) = unmatched ids codes.
Proof.
  induction ids as [|x ids IH]; intros codes Hc; [done|].
  apply not_elem_of_cons in Hc as [Hne Hc].
  cbn [unmatched]. rewrite bool_decide_elem_cons_ne by done.
  case_bool_decide.
  - rewrite remove_first_cons_ne by done. by apply IH.
  - f_equal. by apply IH.
Qed.

Lemma remaining_unmatched ws : ∀ ids,
  remaining ws ids = unmatched ids (map code ws).
Proof.
  induction ws as [|w ws IH]; intros ids; cbn [remaining map].
  - by rewrite unmatched_no_codes.
  - case_bool_decide as Hin.
    + by rewrite IH, unmatched_cons_elem.
    + by rewrite IH, unmatched_cons_not.
Qed.

Section ReconcileFacts.

Context {S P : Type}.
Variable mk_stock : string → Z → S.
Variable mk_price : dict → result P.

Lemma match_stocks_fst ws : ∀ acc ids,
  fst (Reconcile.match_stocks mk_stock ws acc ids)
  = bind (for_each (emit mk_stock) (matched_rows ws ids)) (λ m, Ok (acc ++ m)).
Proof.
  induction ws as [|w ws IH]; intros acc ids; cbn [Reconcile.match_stocks matched_rows].
  - cbn. by rewrite app_nil_r.
  - unfold bindM at 1, contains. fold (code w).
    case_bool_decide as Hin; [|apply IH].
    unfold bindM at 1, lift. cbn [for_each]. unfold emit at 1.
    destruct (Reconcile.stock_of w) as [q|e]; [|done].
    unfold bindM at 1, list_remove. rewrite bool_decide_true by done.
    rewrite IH. cbn [bind].
    destruct (for_each (emit mk_stock) _) as [m|e]; [|done].
    cbn. by rewrite <- app_assoc.
Qed.

Lemma match_stocks_snd ws : ∀ acc ids st ids',
  Reconcile.match_stocks mk_stock ws acc ids = (Ok st, ids') →
  ids' = remaining ws ids.
Proof.
  induction ws as [|w ws IH]; intros acc ids st ids';
    cbn [Reconcile.match_stocks remaining].
  - by intros [= _ <-].
  - unfold bindM at 1, contains. fold (code w).
    case_bool_decide as Hin; [|apply IH].
    unfold bindM at 1, lift.
    destruct (Reconcile.stock_of w) as [q|e]; [|done].
    unfold bindM at 1, list_remove. rewrite bool_decide_true by done.
    apply IH.
Qed.

Lemma create_stocks_fst ws ids :
  fst (Reconcile.create_stocks mk_stock ws ids)
  = bind (for_each (emit mk_stock) (matched_rows ws ids))
      (λ m, Ok (m ++ map (λ x, mk_stock x 0) (remaining ws ids))).
Proof.
  unfold Reconcile.create_stocks, bindM, iterate, ret.
  pose proof (match_stocks_fst ws [] ids) as Hfst.
  pose proof (match_stocks_snd ws [] ids) as Hsnd.
  destruct (Reconcile.match_stocks mk_stock ws [] ids) as [[st|e] ids'];
    cbn [fst] in *.
  - rewrite (Hsnd st ids' eq_refl).
    destruct (for_each (emit mk_stock) _) as [m|e]; [|done].
    cbn in *. by injection Hfst as ->.
  - by destruct (for_each (emit mk_stock) _).
Qed.

Lemma create_stocks_snd ws ids st ids' :
  Reconcile.create_stocks mk_stock ws ids = (Ok st, ids') →
  ids' = remaining ws ids.
Proof.
  unfold Reconcile.create_stocks, bindM, iterate, ret.
  pose proof (match_stocks_snd ws [] ids) as Hsnd.
  destruct (Reconcile.match_stocks mk_stock ws [] ids) as [[m|e] ids1];
    [|done].
  intros [= _ <-]. by eapply Hsnd.
Qed.

(** [create_prices] reads the list and leaves it as it is, also when it
    raises. *)
Lemma match_prices_snd ws : ∀ acc ids,
  snd (Reconcile.match_prices mk_price ws acc ids) = ids.
Proof.
  induction ws as [|w ws IH]; intros acc ids; cbn [Reconcile.match_prices];
    [done|].
  unfold bindM at 1, contains. case_bool_decide; [|apply IH].
  unfold bindM at 1, lift.
  destruct (mk_price w); [apply IH|done].
Qed.

Lemma match_prices_fst ws : ∀ acc ids,
  fst (Reconcile.match_prices mk_price ws acc ids)
  = bind (for_each mk_price (filter (λ w, code w ∈ ids) ws))
      (λ m, Ok (acc ++ m)).
Proof.
  induction ws as [|w ws IH]; intros acc ids; cbn [Reconcile.match_prices].
  - cbn. by rewrite app_nil_r.
  - unfold bindM at 1, contains. fold (code w). rewrite filter_cons.
    case_bool_decide as Hin.
    + rewrite decide_True by done.
      unfold bindM at 1, lift. cbn [for_each].
      destruct (mk_price w) as [p|e]; [|done].
      rewrite IH. cbn [bind].
      destruct (for_each mk_price _) as [m|e]; [|done].
      cbn. by rewrite <- app_assoc.
    + rewrite decide_False by done. apply IH.
Qed.

End ReconcileFacts.

Lemma for_each_Forall2 {A B} (f : A → result B) l m :
  for_each f l = Ok m → Forall2 (λ x y, f x = Ok y) l m.
Proof.
  revert m. induction l as [|x l IH]; intros m; cbn.
  - intros [= <-]. constructor.
  - destruct (f x) as [y|] eqn:Hx; [|done]. cbn.
    destruct (for_each f l) as [ys|]; [|done]. cbn.
    intros [= <-]. constructor; [done|by apply IH].
Qed.

Lemma for_each_map_key {A B K} (f : A → result B) (kb : B → K) (ka : A → K) l m :
  (∀ x y, f x = Ok y → kb y = ka x) →
  for_each f l = Ok m → map kb m = map ka l.
Proof.
  intros Hk Hm. apply for_each_Forall2 in Hm.
  induction Hm as [|x y l m Hxy _ IH]; [done|].
  cbn. by rewrite IH, (Hk x y Hxy).
Qed.

Lemma occurrences_perm x l l' : l ≡ₚ l' → occurrences x l = occurrences x l'.
Proof. unfold occurrences. by intros ->. Qed.

Lemma occurrences_app x l l' :
  occurrences x (l ++ l') = (occurrences x l + occurrences x l')%nat.
Proof. unfold occurrences. by rewrite filter_app, length_app. Qed.

Lemma occurrences_elem x l : x ∈ l ↔ (0 < occurrences x l)%nat.
Proof.
  unfold occurrences. split.
  - intros Hx. assert (x ∈ filter (x =.) l) as Hf
      by by apply list_elem_of_filter.
    destruct (filter _ l); [by apply elem_of_nil in Hf|cbn; lia].
  - intros Hlen. destruct (filter (x =.) l) as [|y f] eqn:Hf; [cbn in Hlen; lia|].
    assert (y ∈ filter (x =.) l) as Hy by (rewrite Hf; by left).
    apply list_elem_of_filter in Hy as [-> Hy]. done.
Qed.

Lemma occurrences_NoDup x l : NoDup l → x ∈ l → occurrences x l = 1%nat.
Proof.
  unfold occurrences. induction 1 as [|y l Hy Hl IH]; intros Hx.
  - by apply elem_of_nil in Hx.
  - rewrite filter_cons. destruct (decide (x = y)) as [->|Hne].
    + cbn. f_equal. apply length_zero_iff_nil.
      destruct (filter (eq y) l) as [|z f] eqn:Hf; [done|].
      assert (z ∈ filter (eq y) l) as Hz by (rewrite Hf; by left).
      apply list_elem_of_filter in Hz as [-> Hz]. done.
    + apply IH. by apply elem_of_cons in Hx as [?|?].
Qed.

(** The rows whose code is a listed identifier carry every occurrence of
    that identifier among the codes of the feed. *)
Lemma occurrences_known_rows x (ids : list string) (feed : list dict) :
  x ∈ ids →
  occurrences x (map code (filter (λ w, code w ∈ ids) feed))
  = occurrences x (map code feed).
Proof.
  intros Hx. unfold occurrences.
  induction feed as [|w feed IH]; [done|].
  rewrite filter_cons. cbn [map]. destruct (decide (code w ∈ ids)) as [Hin|Hout].
  - cbn [map]. rewrite !filter_cons. destruct (decide (x = code w)); cbn; by rewrite IH.
  - rewrite IH, filter_cons. rewrite decide_False; [done|]. by intros ->.
Qed.

Lemma remove_first_perm_proper x l l' :
  l ≡ₚ l' → x ∈ l → remove_first x l ≡ₚ remove_first x l'.
Proof.
  intros Hl Hx. apply (Permutation_cons_inv (a := x)).
  rewrite <- !remove_first_perm; [done| |done]. by rewrite <- Hl.
Qed.

Lemma matched_rows_perm ws : ∀ ids ids',
  ids ≡ₚ ids' →
  matched_rows ws ids = matched_rows ws ids'
  ∧ remaining ws ids ≡ₚ remaining ws ids'.
Proof.
  induction ws as [|w ws IH]; intros ids ids' Hp; cbn; [done|].
  case_bool_decide as Hin.
  - rewrite bool_decide_true by by rewrite <- Hp.
    destruct (IH _ _ (remove_first_perm_proper (code w) ids ids' Hp Hin))
      as [-> Hr]. done.
  - rewrite bool_decide_false by by rewrite <- Hp.
    by apply IH.
Qed.

Lemma sublist_map {A B} (f : A → B) l1 l2 :
  l1 `sublist_of` l2 → map f l1 `sublist_of` map f l2.
Proof. induction 1; cbn; by constructor. Qed.

Section Payloads.

Context {S P : Type}.
Variable mk_stock : string → Z → S.
Variable mk_price : dict → result P.
Variable key : S → string.
Variable qty : S → option Z.
Variable pkey : P → string.
Hypothesis key_mk : ∀ x q, key (mk_stock x q) = x.
Hypothesis qty_mk : ∀ x q, qty (mk_stock x q) = Some q.
Hypothesis pkey_mk : ∀ w p, mk_price w = Ok p → pkey p = code w.

Lemma emit_key w s : emit mk_stock w = Ok s → key s = code w.
Proof.
  unfold emit. destruct (Reconcile.stock_of w); [|done].
  intros [= <-]. apply key_mk.
Qed.

Lemma map_key_zero l : map key (map (λ x, mk_stock x 0) l) = l.
Proof.
  rewrite map_map. rewrite <- (map_id l) at 2.
  apply map_ext. intros x. apply key_mk.
Qed.

Lemma create_stocks_shape feed ids stocks ids' :
  Reconcile.create_stocks mk_stock feed ids = (Ok stocks, ids') →
  ids' = remaining feed ids
  ∧ ∃ matched,
      for_each (emit mk_stock) (matched_rows feed ids) = Ok matched
      ∧ map key matched = map code (matched_rows feed ids)
      ∧ stocks = matched ++ map (λ x, mk_stock x 0) ids'.
Proof.
  intros Hrun.
  pose proof (create_stocks_snd _ _ _ _ _ Hrun) as ->. split; [done|].
  pose proof (create_stocks_fst mk_stock feed ids) as Hfst.
  rewrite Hrun in Hfst. cbn [fst] in Hfst.
  destruct (for_each _ _) as [matched|] eqn:Hm; [|done].
  injection Hfst as ->. exists matched. split; [done|]. split; [|done].
  eapply for_each_map_key; [|done]. apply emit_key.
Qed.

Lemma create_stocks_leaves_unmatched feed ids stocks ids' :
  Reconcile.create_stocks mk_stock feed ids = (Ok stocks, ids') →
  leaves_unmatched key feed ids stocks ids'.
Proof.
  intros (-> & matched & Hm & Hkeys & ->)%create_stocks_shape.
  split; [apply remaining_sublist|].
  split; [|split; [apply remaining_NoDup|apply remaining_unmatched]].
  exists matched, (map (λ x, mk_stock x 0) (remaining feed ids)).
  split; [done|]. split; [apply map_key_zero|]. rewrite Hkeys. split.
  - apply sublist_map, matched_rows_sublist.
  - apply matched_remaining_perm.
Qed.

Lemma create_prices_shape feed ids prices ids' :
  Reconcile.create_prices mk_price feed ids = (Ok prices, ids') →
  ids' = ids
  ∧ for_each mk_price (filter (λ w, code w ∈ ids) feed) = Ok prices
  ∧ map pkey prices = map code (filter (λ w, code w ∈ ids) feed).
Proof.
  intros Hrun. unfold Reconcile.create_prices in Hrun.
  pose proof (match_prices_snd mk_price feed [] ids) as Hsnd.
  pose proof (match_prices_fst mk_price feed [] ids) as Hfst.
  rewrite Hrun in Hsnd, Hfst. cbn [fst snd] in *. split; [done|].
  destruct (for_each _ _) as [m|] eqn:Hm; [|done].
  cbn in Hfst. injection Hfst as ->. split; [done|].
  eapply for_each_map_key; [|done]. apply pkey_mk.
Qed.

Lemma create_reconciled feed ids stocks prices ids1 ids2 :
  Reconcile.create_stocks mk_stock feed ids = (Ok stocks, ids1) →
  Reconcile.create_prices mk_price feed ids = (Ok prices, ids2) →
  reconciled key qty pkey feed ids stocks prices.
Proof.
  intros (-> & matched & Hm & Hkeys & ->)%create_stocks_shape
         (-> & Hp & Hpkeys)%create_prices_shape.
  assert (∀ x, occurrences x
            (map key (matched ++ map (λ x, mk_stock x 0) (remaining feed ids)))
          = occurrences x ids) as Hstocks.
  { intros x. rewrite map_app, map_key_zero, Hkeys.
    symmetry. apply occurrences_perm, matched_remaining_perm. }
  assert (∀ x, x ∈ ids →
            occurrences x (map pkey prices) = occurrences x (map code feed))
    as Hprices.
  { intros x Hx. rewrite Hpkeys. by apply occurrences_known_rows. }
  split; [done|]. split; [done|]. split; cycle 1.
  { intros Hnd x Hx. split.
    - rewrite Hstocks. by apply occurrences_NoDup.
    - intros <-. by apply Hprices. }
  - intros x Hx Hfeed. split.
    + intros s [Hs|Hs]%elem_of_app Hk.
      * exfalso. apply Hfeed. rewrite <- Hk.
        eapply elem_of_sublist; [|apply sublist_map, (matched_rows_sublist feed ids)].
        rewrite <- Hkeys. apply list_elem_of_In, in_map, list_elem_of_In, Hs.
      * apply list_elem_of_In, in_map_iff in Hs as (y & <- & _). apply qty_mk.
    + rewrite Hpkeys. intros Hin. apply Hfeed.
      eapply elem_of_sublist; [done|]. apply sublist_map, sublist_filter.
Qed.

End Payloads.

Lemma seller_key x q : Seller.stock_offer_id (Seller.mk_stock x q) = x.
Proof. done. Qed.

Lemma seller_quantity x q : Seller.quantity (Seller.mk_stock x q) = Some q.
Proof. done. Qed.

Lemma seller_price_key w p :
  Seller.mk_price w = Ok p → Seller.price_offer_id p = code w.
Proof.
  unfold Seller.mk_price.
  destruct (Seller.price_conversion_cell _); [|done]. by intros [= <-].
Qed.

Lemma market_key wh date x q : Market.sku (Market.mk_stock wh date x q) = x.
Proof. done. Qed.

Lemma market_quantity wh date x q :
  Market.quantity (Market.mk_stock wh date x q) = Some q.
Proof. done. Qed.

Lemma market_price_key w p : Market.mk_price w = Ok p → Market.id p = code w.
Proof.
  unfold Market.mk_price.
  destruct (Seller.price_conversion_cell _) as [c|]; [|done]. cbn.
  destruct (int_of_string c); [|done]. by intros [= <-].
Qed.

(** [C1] (amended) Whenever [create_stocks] and [create_prices] return, each
    on the collection of known offer identifiers: every identifier has as
    many stock updates as the collection names it, so exactly one when no
    identifier is listed twice; a known identifier has one price update for
    each feed row with its code, so exactly one when exactly one row carries
    it; a known identifier without a feed row has stock updates of quantity 0
    only, and no price update. *)
Theorem reconciliation_counts :
  (∀ feed ids stocks prices ids1 ids2,
     Seller.create_stocks feed ids = (Ok stocks, ids1) →
     Seller.create_prices feed ids = (Ok prices, ids2) →
     reconciled Seller.stock_offer_id Seller.quantity Seller.price_offer_id
       feed ids stocks prices)
  ∧ (∀ date warehouse_id feed ids stocks prices ids1 ids2,
       Market.create_stocks date feed warehouse_id ids = (Ok stocks, ids1) →
       Market.create_prices feed ids = (Ok prices, ids2) →
       reconciled Market.sku Market.quantity Market.id feed ids stocks prices).
Proof.
  split.
  - intros feed ids stocks prices ids1 ids2 Hs Hp.
    exact (create_reconciled _ _ _ _ _ seller_key seller_quantity
             seller_price_key _ _ _ _ _ _ Hs Hp).
  - intros date wh feed ids stocks prices ids1 ids2 Hs Hp.
    exact (create_reconciled _ _ _ _ _ (market_key wh date)
             (market_quantity wh date) market_price_key _ _ _ _ _ _ Hs Hp).
Qed.

Lemma reconciliation_counts_witness :
  reconciled Seller.stock_offer_id Seller.quantity Seller.price_offer_id
    feed_ab ["A"; "B"; "C"]
    [Seller.Stock "A" 100; Seller.Stock "B" 0; Seller.Stock "C" 0]
    [Seller.Price "UNKNOWN" "RUB" "A" "0" "100";
     Seller.Price "UNKNOWN" "RUB" "B" "0" "50"].
Proof.
  apply (proj1 reconciliation_counts feed_ab ["A"; "B"; "C"] _ _ ["C"]
           ["A"; "B"; "C"]); vm_compute; reflexivity.
Defined.

(** [C1] as stated fails on a feed with two rows of the same code: the known
    identifier "A" is matched and receives two price updates. *)
Lemma duplicate_codes_two_prices :
  ¬ (∀ prices ids',
       Seller.create_prices feed_twice ["A"] = (Ok prices, ids') →
       occurrences "A" (map Seller.price_offer_id prices) = 1%nat).
Proof.
  intros H.
  specialize (H [Seller.Price "UNKNOWN" "RUB" "A" "0" "10";
                 Seller.Price "UNKNOWN" "RUB" "A" "0" "20"] ["A"]).
  discriminate H. vm_compute. reflexivity.
Qed.

Lemma for_each_app {A B} (f : A → result B) l1 l2 :
  for_each f (l1 ++ l2)
  = bind (for_each f l1) (λ a, bind (for_each f l2) (λ b, Ok (a ++ b))).
Proof.
  induction l1 as [|x l1 IH]; cbn.
  - by destruct (for_each f l2).
  - destruct (f x); [|done]. cbn. rewrite IH.
    destruct (for_each f l1); [|done]. cbn.
    by destruct (for_each f l2).
Qed.

Lemma matched_rows_app pre post ids :
  matched_rows (pre ++ post) ids
  = matched_rows pre ids ++ matched_rows post (remaining pre ids).
Proof.
  revert ids. induction pre as [|w pre IH]; intros ids; cbn; [done|].
  case_bool_decide; [cbn; f_equal|]; apply IH.
Qed.

Lemma remaining_app pre post ids :
  remaining (pre ++ post) ids = remaining post (remaining pre ids).
Proof.
  revert ids. induction pre as [|w pre IH]; intros ids; cbn; [done|].
  case_bool_decide; apply IH.
Qed.

(** An identifier that is the code of none of the rows stays in the list. *)
Lemma remaining_keeps x ws ids :
  x ∈ ids → x ∉ map code ws → x ∈ remaining ws ids.
Proof.
  intros Hx Hws. rewrite (matched_remaining_perm ws ids) in Hx.
  apply elem_of_app in Hx as [Hx|Hx]; [|done].
  exfalso. apply Hws.
  eapply elem_of_sublist; [done|]. apply sublist_map, matched_rows_sublist.
Qed.

Lemma create_stocks_quantized {S} (mk : string → Z → S) :
  quantized (Reconcile.create_stocks mk) mk.
Proof.
  intros pre w post ids before ids1 Hpre Hin count.
  pose proof (create_stocks_snd _ _ _ _ _ Hpre) as ->.
  pose proof (create_stocks_fst mk pre ids) as Hfst.
  rewrite Hpre in Hfst. cbn [fst] in Hfst.
  destruct (for_each (emit mk) (matched_rows pre ids)) as [m|] eqn:Hm; [|done].
  injection Hfst as ->.
  set (zeros := map (λ x, mk x 0) (remaining pre ids)) in *.
  assert ((length (m ++ zeros) - length (remaining pre ids))%nat = length m)
    as -> by (subst zeros; rewrite length_app, length_map; lia).
  assert (for_each (emit mk) (matched_rows (pre ++ w :: post) ids)
          = bind (emit mk w) (λ s,
              bind (for_each (emit mk)
                      (matched_rows post (remove_first (code w) (remaining pre ids))))
                (λ rest, Ok (m ++ s :: rest)))) as Hall.
  { rewrite matched_rows_app, for_each_app, Hm. cbn [bind matched_rows].
    rewrite bool_decide_true by done. cbn [for_each].
    destruct (emit mk w); cbn; [|done].
    by destruct (for_each (emit mk) (matched_rows post _)). }
  split.
  - intros stocks ids' Hrun.
    pose proof (create_stocks_fst mk (pre ++ w :: post) ids) as Hfst.
    rewrite Hrun, Hall in Hfst. cbn [fst] in Hfst.
    unfold emit at 1 in Hfst. unfold Reconcile.stock_of in Hfst. fold count in Hfst.
    assert (∃ q rest tail,
              stocks = (m ++ mk (code w) q :: rest) ++ tail
              ∧ (if decide (count = ">10") then Ok 100
                 else if decide (count = "1") then Ok 0
                 else int (get "Количество" w)) = Ok q)
      as (q & rest & tail & -> & Hq).
    { destruct (if decide (count = ">10") then _ else _) as [q|]; [|done].
      cbn in Hfst.
      destruct (for_each (emit mk) (matched_rows post _)) as [rest|]; [|done].
      cbn in Hfst. injection Hfst as ->. by eexists _, _, _. }
    exists q. split.
    { rewrite <- app_assoc. rewrite lookup_app_r by lia.
      by rewrite Nat.sub_diag. }
    repeat case_decide; split_and!; intros; congruence.
  - intros e H10 H1 Hint.
    rewrite create_stocks_fst, Hall. unfold emit at 1, Reconcile.stock_of.
    fold count. rewrite !decide_False by done. by rewrite Hint.
Qed.

(** [C2] A feed row whose stringified code is among the known offer
    identifiers when [create_stocks] reaches it gets a stock update with
    quantity 100 when its quantity reads ">10", 0 when it reads "1", and the
    integer conversion of the quantity otherwise, which for a string or an
    integer cell is the parse of the quantity string; when that conversion
    raises, [create_stocks] raises the same exception.  For the feed
    [A ">10" "100.00"], [B "1" "50.00"] and the identifiers A, B, C the stock
    updates are A:100, B:0, C:0 and the price updates are A:100, B:50. *)
Theorem stock_quantization :
  quantized Seller.create_stocks Seller.mk_stock
  ∧ (∀ date warehouse_id,
       quantized (λ feed, Market.create_stocks date feed warehouse_id)
         (Market.mk_stock warehouse_id date))
  ∧ fst (Seller.create_stocks feed_ab ["A"; "B"; "C"])
    = Ok [Seller.Stock "A" 100; Seller.Stock "B" 0; Seller.Stock "C" 0]
  ∧ fst (Seller.create_prices feed_ab ["A"; "B"; "C"])
    = Ok [Seller.Price "UNKNOWN" "RUB" "A" "0" "100";
          Seller.Price "UNKNOWN" "RUB" "B" "0" "50"]
  ∧ (∀ date warehouse_id,
       fst (Market.create_stocks date feed_ab warehouse_id ["A"; "B"; "C"])
       = Ok [Market.Stock "A" warehouse_id [Market.Item 100 "FIT" date];
             Market.Stock "B" warehouse_id [Market.Item 0 "FIT" date];
             Market.Stock "C" warehouse_id [Market.Item 0 "FIT" date]])
  ∧ fst (Market.create_prices feed_ab ["A"; "B"; "C"])
    = Ok [Market.Price "A" (Market.PriceValue 100 "RUR");
          Market.Price "B" (Market.PriceValue 50 "RUR")]
  ∧ (∀ quantity, quantity ≠ VNone →
       int quantity = int_of_string (str quantity)).
Proof.
  split; [apply create_stocks_quantized|].
  split; [intros; apply create_stocks_quantized|].
  split; [by vm_compute|]. split; [by vm_compute|].
  split; [|split; [by vm_compute|]].
  - intros date wh. unfold Market.create_stocks.
    rewrite create_stocks_fst. by vm_compute.
  - intros [|s|z] Hq; [done|done|]. symmetry. apply int_str_round_trip.
Qed.

Lemma stock_quantization_witness :
  ∃ q, [Seller.Stock "A" 100; Seller.Stock "B" 0; Seller.Stock "C" 0]
         !! 1%nat = Some (Seller.mk_stock "B" q)
       ∧ q = 0.
Proof.
  destruct (proj1 (proj1 stock_quantization
                     [row (VStr "A") (VStr ">10") (VStr "100.00")]
                     (row (VStr "B") (VStr "1") (VStr "50.00"))
                     [] ["A"; "B"; "C"]
                     [Seller.Stock "A" 100; Seller.Stock "B" 0; Seller.Stock "C" 0]
                     ["B"; "C"] eq_refl
                     ltac:(vm_compute; apply list_elem_of_here))
              [Seller.Stock "A" 100; Seller.Stock "B" 0; Seller.Stock "C" 0]
              ["C"] eq_refl)
    as (q & Hq & _ & H1 & _).
  exists q. split; [exact Hq|]. apply H1. reflexivity.
Defined.

(** [C10] (amended) [create_prices] leaves the list of offer identifiers as
    it is, whatever it returns or raises; [create_stocks], when it returns,
    has removed from the list one occurrence of an identifier, the first, for
    each feed row it matched: the list then holds the occurrences that no
    feed row took, in their original relative order, which are precisely the
    unmatched identifiers when no identifier is listed twice. *)
Theorem offer_ids_frame :
  (∀ feed ids, snd (Seller.create_prices feed ids) = ids)
  ∧ (∀ feed ids, snd (Market.create_prices feed ids) = ids)
  ∧ (∀ feed ids stocks ids',
       Seller.create_stocks feed ids = (Ok stocks, ids') →
       leaves_unmatched Seller.stock_offer_id feed ids stocks ids')
  ∧ (∀ date warehouse_id feed ids stocks ids',
       Market.create_stocks date feed warehouse_id ids = (Ok stocks, ids') →
       leaves_unmatched Market.sku feed ids stocks ids').
Proof.
  split; [intros; apply match_prices_snd|].
  split; [intros; apply match_prices_snd|].
  split.
  - intros feed ids stocks ids'.
    apply (create_stocks_leaves_unmatched _ _ seller_key).
  - intros date wh feed ids stocks ids'.
    apply (create_stocks_leaves_unmatched _ _ (market_key wh date)).
Qed.

Lemma offer_ids_frame_witness :
  leaves_unmatched Seller.stock_offer_id feed_ab ["C"; "B"; "D"; "A"]
    [Seller.Stock "A" 100; Seller.Stock "B" 0;
     Seller.Stock "C" 0; Seller.Stock "D" 0]
    ["C"; "D"]
  ∧ leaves_unmatched Market.sku feed_ab ["A"; "C"; "A"]
      [Market.Stock "A" "w" [Market.Item 100 "FIT" "t"];
       Market.Stock "C" "w" [Market.Item 0 "FIT" "t"];
       Market.Stock "A" "w" [Market.Item 0 "FIT" "t"]]
      ["C"; "A"].
Proof.
  split.
  - apply (proj1 (proj2 (proj2 offer_ids_frame)) feed_ab ["C"; "B"; "D"; "A"]).
    vm_compute. reflexivity.
  - apply (proj2 (proj2 (proj2 offer_ids_frame)) "t" "w" feed_ab
             ["A"; "C"; "A"]).
    vm_compute. reflexivity.
Defined.

(** [C10] as stated fails when an identifier is listed twice: with one feed
    row of code "A" and the list A, A, [create_stocks] removes the first A
    and leaves the second, so that the list still holds an identifier a feed
    row matched, not precisely the unmatched ones. *)
Lemma repeated_identifier_stays :
  ¬ (∀ stocks ids',
       Seller.create_stocks [row (VStr "A") (VInt 5) (VStr "10.00")] ["A"; "A"]
       = (Ok stocks, ids') →
       ∀ x, x ∈ ids' → x ∉ map code [row (VStr "A") (VInt 5) (VStr "10.00")]).
Proof.
  intros H.
  specialize (H [Seller.Stock "A" 5; Seller.Stock "A" 0] ["A"] eq_refl "A").
  apply H; [apply list_elem_of_here|]. vm_compute. apply list_elem_of_here.
Qed.

Lemma filter_none {A} (P : A → Prop) `{!∀ x, Decision (P x)} (l : list A) :
  (∀ x, x ∈ l → ¬ P x) → filter P l = [].
Proof.
  induction l as [|a l IH]; intros Hl; [done|].
  rewrite filter_cons_False by (apply Hl; by left).
  apply IH. intros x Hx. apply Hl. by right.
Qed.

(** In [main] of [seller.py] the list that [create_stocks] has consumed is
    the one [create_prices] receives: when no identifier is listed twice, no
    feed row matches what is left, and no price is built. *)
Lemma main_payloads_prices feed ids stocks prices ids' :
  NoDup ids →
  Seller.main_payloads feed ids = (Ok (stocks, prices), ids') →
  prices = [].
Proof.
  intros Hnd. unfold Seller.main_payloads, bindM, ret.
  destruct (Seller.create_stocks feed ids) as [[st|e] ids1] eqn:Hs; [|done].
  destruct (Seller.create_prices feed ids1) as [[pr|e] ids2] eqn:Hp; [|done].
  intros [= <- <- <-].
  apply create_stocks_snd in Hs as ->.
  apply (create_prices_shape _ _ seller_price_key) in Hp as (_ & Hp & _).
  rewrite remaining_NoDup in Hp by done.
  rewrite filter_none in Hp; [by injection Hp|].
  intros w Hw [Hout _]%list_elem_of_filter. apply Hout.
  apply list_elem_of_In, in_map, list_elem_of_In, Hw.
Qed.

(** ** Idempotence *)

Lemma same_updates_perm {S} (zero : string → S) s s' :
  same_updates zero (Ok s) (Ok s') → s ≡ₚ s'.
Proof.
  intros (matched & rest & rest' & -> & -> & Hp).
  apply Permutation_app_head, Permutation_map, Hp.
Qed.

Lemma create_stocks_perm {S} (mk : string → Z → S) feed ids ids' :
  ids ≡ₚ ids' →
  same_updates (λ x, mk x 0)
    (fst (Reconcile.create_stocks mk feed ids))
    (fst (Reconcile.create_stocks mk feed ids')).
Proof.
  intros Hp. rewrite !create_stocks_fst.
  destruct (matched_rows_perm feed ids ids' Hp) as [<- Hrest].
  destruct (for_each (emit mk) (matched_rows feed ids)) as [m|e]; cbn; [|done].
  by eexists _, _, _.
Qed.

Lemma create_prices_perm {P} (mk : dict → result P) feed ids ids' :
  ids ≡ₚ ids' →
  fst (Reconcile.create_prices mk feed ids)
  = fst (Reconcile.create_prices mk feed ids').
Proof.
  intros Hp. unfold Reconcile.create_prices. rewrite !match_prices_fst.
  replace (filter (λ w, code w ∈ ids') feed)
    with (filter (λ w, code w ∈ ids) feed); [done|].
  apply list_filter_iff. intros w. by rewrite Hp.
Qed.

Lemma for_each_emit_natural {S T} (f : S → T) (mk : string → Z → S) rows :
  for_each (emit (λ x q, f (mk x q))) rows
  = on_ok (map f) (for_each (emit mk) rows).
Proof.
  induction rows as [|w rows IH]; [done|].
  cbn [for_each]. rewrite IH. unfold emit at 1 3.
  destruct (Reconcile.stock_of w); [|done]. cbn.
  by destruct (for_each (emit mk) rows).
Qed.

(** The updates built with a payload seen through [f] are the updates built
    with the payload, seen through [f]. *)
Lemma create_stocks_natural {S T} (f : S → T) (mk : string → Z → S) feed ids :
  on_ok (map f) (fst (Reconcile.create_stocks mk feed ids))
  = fst (Reconcile.create_stocks (λ x q, f (mk x q)) feed ids).
Proof.
  rewrite !create_stocks_fst, for_each_emit_natural.
  destruct (for_each (emit mk) (matched_rows feed ids)) as [m|e]; [|done].
  cbn. by rewrite map_app, map_map.
Qed.

(** [C3] (amended) Reconciliation depends on the contents of its inputs and,
    for the stock updates of [market.py], on the clock, which
    [create_stocks] reads at each call for their [updatedAt].  Called again
    with the same feed rows and a collection that holds the same
    identifiers, [create_stocks] of [seller.py] gives the same matched
    updates in the same order, followed by the zero updates of the unmatched
    identifiers, which differ in order only as the identifiers do, or raises
    the same exception, and both [create_prices] give the same outcome; so
    does [create_stocks] of [market.py] when both calls read the same time,
    and when they read different times its updates are the same but for
    their time stamp. *)
Theorem reconciliation_repeatable :
  (∀ feed ids ids', ids ≡ₚ ids' →
     same_updates (λ x, Seller.mk_stock x 0)
       (fst (Seller.create_stocks feed ids))
       (fst (Seller.create_stocks feed ids'))
     ∧ (ids = ids' →
        fst (Seller.create_stocks feed ids) = fst (Seller.create_stocks feed ids'))
     ∧ fst (Seller.create_prices feed ids) = fst (Seller.create_prices feed ids'))
  ∧ (∀ date warehouse_id feed ids ids', ids ≡ₚ ids' →
       same_updates (λ x, Market.mk_stock warehouse_id date x 0)
         (fst (Market.create_stocks date feed warehouse_id ids))
         (fst (Market.create_stocks date feed warehouse_id ids'))
       ∧ (ids = ids' →
          fst (Market.create_stocks date feed warehouse_id ids)
          = fst (Market.create_stocks date feed warehouse_id ids'))
       ∧ fst (Market.create_prices feed ids) = fst (Market.create_prices feed ids'))
  ∧ (∀ date date' warehouse_id feed ids ids', ids ≡ₚ ids' →
       same_updates (λ x, (x, warehouse_id, [(0, "FIT")]))
         (on_ok (map untimed)
            (fst (Market.create_stocks date feed warehouse_id ids)))
         (on_ok (map untimed)
            (fst (Market.create_stocks date' feed warehouse_id ids')))
       ∧ (ids = ids' →
          on_ok (map untimed)
            (fst (Market.create_stocks date feed warehouse_id ids))
          = on_ok (map untimed)
              (fst (Market.create_stocks date' feed warehouse_id ids')))).
Proof.
  split; [|split].
  - intros feed ids ids' Hp. split; [by apply create_stocks_perm|].
    split; [by intros ->|by apply create_prices_perm].
  - intros date wh feed ids ids' Hp. split; [by apply create_stocks_perm|].
    split; [by intros ->|by apply create_prices_perm].
  - intros date date' wh feed ids ids' Hp. unfold Market.create_stocks.
    rewrite !create_stocks_natural.
    change (λ x q, untimed (Market.mk_stock wh date x q))
      with (λ (x : string) (q : Z), (x, wh, [(q, "FIT")])).
    change (λ x q, untimed (Market.mk_stock wh date' x q))
      with (λ (x : string) (q : Z), (x, wh, [(q, "FIT")])).
    split; [|by intros ->].
    exact (create_stocks_perm (λ x q, (x, wh, [(q, "FIT")])) feed ids ids' Hp).
Qed.

Lemma reconciliation_repeatable_witness :
  same_updates (λ x, Seller.mk_stock x 0)
    (fst (Seller.create_stocks feed_ab ["A"; "B"; "C"; "D"]))
    (fst (Seller.create_stocks feed_ab ["D"; "C"; "B"; "A"]))
  ∧ same_updates (λ x, (x, "w", [(0, "FIT")]))
      (on_ok (map untimed)
         (fst (Market.create_stocks "2024-05-01T10:00:00Z" feed_ab "w"
                 ["A"; "B"; "C"; "D"])))
      (on_ok (map untimed)
         (fst (Market.create_stocks "2024-05-01T10:00:01Z" feed_ab "w"
                 ["D"; "C"; "B"; "A"]))).
Proof.
  assert (["A"; "B"; "C"; "D"] ≡ₚ ["D"; "C"; "B"; "A"]) as Hp.
  { change ["D"; "C"; "B"; "A"] with (reverse ["A"; "B"; "C"; "D"]).
    symmetry. apply reverse_Permutation. }
  split.
  - exact (proj1 (proj1 reconciliation_repeatable feed_ab
                    ["A"; "B"; "C"; "D"] ["D"; "C"; "B"; "A"] Hp)).
  - exact (proj1 (proj2 (proj2 reconciliation_repeatable)
                    "2024-05-01T10:00:00Z" "2024-05-01T10:00:01Z" "w" feed_ab
                    ["A"; "B"; "C"; "D"] ["D"; "C"; "B"; "A"] Hp)).
Defined.

(** [C3] as stated fails for [create_stocks] of [market.py]: two calls with
    the same feed rows and the same identifiers, one second apart, give
    stock updates that differ in their [updatedAt]. *)
Lemma clock_between_calls :
  ¬ (∀ first second,
       fst (Market.create_stocks "2024-05-01T10:00:00Z" feed_ab "w"
              ["A"; "B"; "C"]) = Ok first →
       fst (Market.create_stocks "2024-05-01T10:00:01Z" feed_ab "w"
              ["A"; "B"; "C"]) = Ok second →
       first ≡ₚ second).
Proof.
  intros H.
  specialize (H _ _ eq_refl eq_refl).
  assert (Market.Stock "A" "w" [Market.Item 100 "FIT" "2024-05-01T10:00:00Z"]
          ∈ [Market.Stock "A" "w" [Market.Item 100 "FIT" "2024-05-01T10:00:01Z"];
             Market.Stock "B" "w" [Market.Item 0 "FIT" "2024-05-01T10:00:01Z"];
             Market.Stock "C" "w" [Market.Item 0 "FIT" "2024-05-01T10:00:01Z"]])
    as Hin by (rewrite <- H; apply list_elem_of_here).
  repeat (apply elem_of_cons in Hin as [Hin|Hin]; [discriminate Hin|]).
  by apply elem_of_nil in Hin.
Qed.

(** A second call on the very list object the first call was given is a call
    on another collection: [create_stocks] has taken the matched identifiers
    out of it, and the second call returns the zero updates of the others. *)
Lemma second_call_on_consumed_list :
  fst (twice (Seller.create_stocks feed_ab) ["A"; "B"; "C"])
  = Ok ([Seller.Stock "A" 100; Seller.Stock "B" 0; Seller.Stock "C" 0],
        [Seller.Stock "C" 0]).
Proof. reflexivity. Qed.

(** ** Empty prices *)

Lemma re_sub_outside_in_range lo hi s :
  Forall (λ c, (N_of_ascii lo <= N_of_ascii c <= N_of_ascii hi)%N)
    (list_ascii_of_string (re_sub_outside lo hi s)).
Proof.
  induction s as [|c s IH]; cbn [re_sub_outside]; [constructor|].
  destruct (N.leb_spec (N_of_ascii lo) (N_of_ascii c));
    destruct (N.leb_spec (N_of_ascii c) (N_of_ascii hi)); cbn; try done.
  constructor; [lia|done].
Qed.

Lemma price_conversion_digits price :
  ∃ r, Seller.price_conversion price = Ok r
       ∧ Forall (λ c, is_digit c = true) (list_ascii_of_string r).
Proof.
  unfold Seller.price_conversion.
  destruct (split_head "." price) as (h & t & -> & _). cbn.
  eexists. split; [done|].
  eapply Forall_impl; [apply re_sub_outside_in_range|].
  intros c. change (N_of_ascii "0") with 48%N. change (N_of_ascii "9") with 57%N.
  unfold is_digit. intros [? ?].
  apply andb_true_intro. split; by apply N.leb_le.
Qed.

(** A matched row whose price has no digit before its first "." stops the
    price loop of [market.py]. *)
Lemma market_create_prices_empty watch rest ids :
  code watch ∈ ids →
  Seller.price_conversion_cell (get "Цена" watch) = Ok "" →
  Market.create_prices (watch :: rest) ids = (Raise ValueError, ids).
Proof.
  intros Hin Hp. unfold Market.create_prices, Reconcile.create_prices.
  cbn [Reconcile.match_prices]. unfold bindM at 1, contains. fold (code watch).
  rewrite bool_decide_true by done.
  unfold bindM, lift, Market.mk_price. by rewrite Hp.
Qed.

(** [C9] [price_conversion] returns on every string, and what it returns
    consists of decimal digits only; it can be empty: "руб." gives "", and
    the [create_prices] of [market.py] then raises at the integer conversion
    of that result. *)
Theorem price_conversion_empty :
  (∀ price, ∃ r, Seller.price_conversion price = Ok r
                 ∧ Forall (λ c, Spec.decimal_digit c = true)
                     (list_ascii_of_string r))
  ∧ Seller.price_conversion "руб." = Ok ""
  ∧ int (VStr "") = Raise ValueError
  ∧ (∀ watch rest ids,
       code watch ∈ ids →
       Seller.price_conversion_cell (get "Цена" watch) = Ok "" →
       Market.create_prices (watch :: rest) ids = (Raise ValueError, ids)).
Proof.
  split; [|split; [by vm_compute|split; [by vm_compute|]]].
  - intros price. destruct (price_conversion_digits price) as (r & Hr & Hd).
    exists r. split; [done|].
    eapply Forall_impl; [done|]. intros c Hc. cbn in *.
    by rewrite <- is_digit_decimal_digit.
  - apply market_create_prices_empty.
Qed.

Lemma price_conversion_empty_witness :
  Market.create_prices
    [row (VStr "A") (VInt 3) (VStr "руб."); row (VStr "B") (VInt 1) (VStr "50.00")]
    ["A"; "B"]
  = (Raise ValueError, ["A"; "B"]).
Proof.
  apply (proj2 (proj2 (proj2 price_conversion_empty))).
  - vm_compute. apply list_elem_of_here.
  - vm_compute. reflexivity.
Defined.

(** ** Catalogue listing *)

Lemma first_true_below (f : nat → bool) k :
  (∃ k', (k' < k)%nat ∧ f k' = true ∧ ∀ j, (j < k')%nat → f j = false)
  ∨ (∀ j, (j < k)%nat → f j = false).
Proof.
  induction k as [|k [(k' & ? & ? & ?)|IH]].
  - right. intros j ?. lia.
  - left. exists k'. split; [lia|done].
  - destruct (f k) eqn:Hk.
    + left. exists k. split; [lia|done].
    + right. intros j Hj. destruct (decide (j = k)) as [->|]; [done|].
      apply IH. lia.
Qed.

Lemma first_true (f : nat → bool) k :
  f k = true →
  ∃ k', (k' ≤ k)%nat ∧ f k' = true ∧ ∀ j, (j < k')%nat → f j = false.
Proof.
  intros Hk. destruct (first_true_below f (Datatypes.S k))
    as [(k' & ? & ? & ?)|Hnone].
  - exists k'. split; [lia|done].
  - rewrite Hnone in Hk by lia. done.
Qed.

Section OzonListing.

Variable server : nat → value → result Seller.page.

Lemma ozon_signal_at k last_id product_list :
  Seller.before server k = Some (last_id, product_list) →
  Seller.signal server k
  = match server k last_id with
    | Ok some_prod => ozon_exit_test product_list some_prod
    | Raise _ => false
    end.
Proof.
  intros Hb. unfold Seller.signal, Seller.answer, Seller.collected.
  cbn [Seller.before]. rewrite Hb. by destruct (server k last_id).
Qed.

Lemma ozon_before_S k last_id product_list :
  Seller.before server k = Some (last_id, product_list) →
  Seller.before server (Datatypes.S k)
  = match server k last_id with
    | Ok some_prod =>
        Some (Seller.page_last_id some_prod,
              product_list ++ Seller.page_items some_prod)
    | Raise _ => None
    end.
Proof. intros Hb. cbn [Seller.before]. by rewrite Hb. Qed.

Lemma ozon_listing_exit fuel : ∀ k last_id product_list r n,
  Seller.before server k = Some (last_id, product_list) →
  Seller.listing server fuel k last_id product_list = Some (Ok r, n) →
  ∃ k', n = Datatypes.S k' ∧ (k ≤ k' < k + fuel)%nat
        ∧ Seller.signal server k' = true
        ∧ (∀ j, (k ≤ j < k')%nat → Seller.signal server j = false)
        ∧ Seller.collected server k' = Some r.
Proof.
  induction fuel as [|fuel IH]; intros k lid pl r n Hb; cbn [Seller.listing];
    [done|].
  pose proof (ozon_signal_at k lid pl Hb) as Hsig.
  pose proof (ozon_before_S k lid pl Hb) as HbS.
  unfold Seller.get_product_list.
  destruct (server k lid) as [p|e]; [|done].
  fold (ozon_exit_test pl p). destruct (ozon_exit_test pl p) eqn:Hexit.
  - intros [= <- <-]. exists k. split; [done|]. split; [lia|].
    split; [done|]. split; [intros; lia|].
    unfold Seller.collected. by rewrite HbS.
  - intros Hrun. destruct (IH _ _ _ _ _ HbS Hrun)
      as (k' & -> & Hk' & Hs & Hfirst & Hcol).
    exists k'. split; [done|]. split; [lia|]. split; [done|]. split; [|done].
    intros j Hj. destruct (decide (j = k)) as [->|]; [done|]. apply Hfirst. lia.
Qed.

Lemma ozon_before_pred k :
  is_Some (Seller.before server (Datatypes.S k)) →
  is_Some (Seller.before server k).
Proof.
  cbn [Seller.before]. destruct (Seller.before server k); [eauto|].
  by intros [? ?].
Qed.

Lemma ozon_before_le k d :
  is_Some (Seller.before server (k + d)) → is_Some (Seller.before server k).
Proof.
  induction d as [|d IH]; [by rewrite Nat.add_0_r|].
  rewrite Nat.add_succ_r. intros H. by apply IH, ozon_before_pred.
Qed.

Lemma ozon_signal_answered k :
  Seller.signal server k = true →
  is_Some (Seller.before server (Datatypes.S k)).
Proof.
  unfold Seller.signal, Seller.collected.
  destruct (Seller.before server (Datatypes.S k)); [eauto|].
  cbn. by destruct (Seller.answer server k) as [[?|?]|].
Qed.

Lemma ozon_listing_reach d : ∀ fuel k last_id product_list,
  Seller.before server k = Some (last_id, product_list) →
  Seller.signal server (k + d) = true →
  (∀ j, (k ≤ j < k + d)%nat → Seller.signal server j = false) →
  (d < fuel)%nat →
  ∃ r, Seller.listing server fuel k last_id product_list
       = Some (Ok r, Datatypes.S (k + d))
       ∧ Seller.collected server (k + d) = Some r.
Proof.
  induction d as [|d IH]; intros fuel k lid pl Hb Hs Hfirst Hfuel;
    (destruct fuel as [|fuel]; [lia|]); cbn [Seller.listing];
    pose proof (ozon_signal_at k lid pl Hb) as Hsig;
    pose proof (ozon_before_S k lid pl Hb) as HbS;
    unfold Seller.get_product_list.
  - rewrite Nat.add_0_r in *. rewrite Hs in Hsig.
    destruct (server k lid) as [p|e]; [|done].
    fold (ozon_exit_test pl p). rewrite <- Hsig.
    eexists. split; [done|]. unfold Seller.collected. by rewrite HbS.
  - assert (is_Some (Seller.before server (Datatypes.S k))) as Hnext.
    { apply (ozon_before_le _ d). rewrite Nat.add_succ_comm.
      by apply ozon_before_pred, ozon_signal_answered. }
    rewrite (Hfirst k) in Hsig by lia.
    destruct (server k lid) as [p|e];
      [|rewrite HbS in Hnext; by destruct Hnext].
    fold (ozon_exit_test pl p). rewrite <- Hsig.
    rewrite <- Nat.add_succ_comm in *.
    apply IH; [done|done| |lia]. intros j Hj. apply Hfirst. lia.
Qed.

Lemma ozon_listing_running fuel : ∀ k last_id product_list,
  Seller.before server k = Some (last_id, product_list) →
  Seller.listing server fuel k last_id product_list = None
  ↔ ∀ j, (k ≤ j < k + fuel)%nat →
      Seller.signal server j = false
      ∧ is_Some (Seller.before server (Datatypes.S j)).
Proof.
  induction fuel as [|fuel IH]; intros k lid pl Hb; cbn [Seller.listing].
  - split; [intros _ j ?; lia|done].
  - pose proof (ozon_signal_at k lid pl Hb) as Hsig.
    pose proof (ozon_before_S k lid pl Hb) as HbS.
    unfold Seller.get_product_list.
    destruct (server k lid) as [p|e].
    + fold (ozon_exit_test pl p). rewrite <- Hsig.
      destruct (Seller.signal server k) eqn:Hk.
      * split; [done|]. intros H. destruct (H k) as [? _]; [lia|congruence].
      * rewrite (IH _ _ _ HbS). split.
        -- intros H j Hj. destruct (decide (j = k)) as [->|].
           ++ split; [done|]. rewrite HbS. eauto.
           ++ apply H. lia.
        -- intros H j Hj. apply H. lia.
    + split; [done|]. intros H. destruct (H k) as [_ [? Hs]]; [lia|].
      congruence.
Qed.

End OzonListing.

Section YandexListing.

Variable server : nat → value → result Market.product_page.

Lemma yandex_signal_at k page product_list :
  Market.before server k = Some (page, product_list) →
  Market.signal server k
  = match server k page with
    | Ok some_prod => yandex_exit_test some_prod
    | Raise _ => false
    end.
Proof.
  intros Hb. unfold Market.signal, Market.answer. rewrite Hb.
  by destruct (server k page).
Qed.

Lemma yandex_before_S k page product_list :
  Market.before server k = Some (page, product_list) →
  Market.before server (Datatypes.S k)
  = match server k page with
    | Ok some_prod =>
        Some (get "nextPageToken" (Market.paging some_prod),
              product_list ++ Market.offerMappingEntries some_prod)
    | Raise _ => None
    end.
Proof. intros Hb. cbn [Market.before]. by rewrite Hb. Qed.

Lemma yandex_listing_exit fuel : ∀ k page product_list r n,
  Market.before server k = Some (page, product_list) →
  Market.listing server fuel k page product_list = Some (Ok r, n) →
  ∃ k', n = Datatypes.S k' ∧ (k ≤ k' < k + fuel)%nat
        ∧ Market.signal server k' = true
        ∧ (∀ j, (k ≤ j < k')%nat → Market.signal server j = false)
        ∧ Market.collected server k' = Some r.
Proof.
  induction fuel as [|fuel IH]; intros k tok pl r n Hb; cbn [Market.listing];
    [done|].
  pose proof (yandex_signal_at k tok pl Hb) as Hsig.
  pose proof (yandex_before_S k tok pl Hb) as HbS.
  unfold Market.get_product_list.
  destruct (server k tok) as [p|e]; [|done].
  fold (yandex_exit_test p). destruct (yandex_exit_test p) eqn:Hexit.
  - intros [= <- <-]. exists k. split; [done|]. split; [lia|].
    split; [done|]. split; [intros; lia|].
    unfold Market.collected. by rewrite HbS.
  - intros Hrun. destruct (IH _ _ _ _ _ HbS Hrun)
      as (k' & -> & Hk' & Hs & Hfirst & Hcol).
    exists k'. split; [done|]. split; [lia|]. split; [done|]. split; [|done].
    intros j Hj. destruct (decide (j = k)) as [->|]; [done|]. apply Hfirst. lia.
Qed.

Lemma yandex_before_pred k :
  is_Some (Market.before server (Datatypes.S k)) →
  is_Some (Market.before server k).
Proof.
  cbn [Market.before]. destruct (Market.before server k); [eauto|].
  by intros [? ?].
Qed.

Lemma yandex_before_le k d :
  is_Some (Market.before server (k + d)) → is_Some (Market.before server k).
Proof.
  induction d as [|d IH]; [by rewrite Nat.add_0_r|].
  rewrite Nat.add_succ_r. intros H. by apply IH, yandex_before_pred.
Qed.

Lemma yandex_signal_answered k :
  Market.signal server k = true →
  is_Some (Market.before server (Datatypes.S k)).
Proof.
  unfold Market.signal, Market.answer. cbn [Market.before].
  destruct (Market.before server k) as [[tok pl]|]; [|done].
  destruct (server k tok); [eauto|done].
Qed.

Lemma yandex_listing_reach d : ∀ fuel k page product_list,
  Market.before server k = Some (page, product_list) →
  Market.signal server (k + d) = true →
  (∀ j, (k ≤ j < k + d)%nat → Market.signal server j = false) →
  (d < fuel)%nat →
  ∃ r, Market.listing server fuel k page product_list
       = Some (Ok r, Datatypes.S (k + d))
       ∧ Market.collected server (k + d) = Some r.
Proof.
  induction d as [|d IH]; intros fuel k tok pl Hb Hs Hfirst Hfuel;
    (destruct fuel as [|fuel]; [lia|]); cbn [Market.listing];
    pose proof (yandex_signal_at k tok pl Hb) as Hsig;
    pose proof (yandex_before_S k tok pl Hb) as HbS;
    unfold Market.get_product_list.
  - rewrite Nat.add_0_r in *. rewrite Hs in Hsig.
    destruct (server k tok) as [p|e]; [|done].
    fold (yandex_exit_test p). rewrite <- Hsig.
    eexists. split; [done|]. unfold Market.collected. by rewrite HbS.
  - assert (is_Some (Market.before server (Datatypes.S k))) as Hnext.
    { apply (yandex_before_le _ d). rewrite Nat.add_succ_comm.
      by apply yandex_before_pred, yandex_signal_answered. }
    rewrite (Hfirst k) in Hsig by lia.
    destruct (server k tok) as [p|e];
      [|rewrite HbS in Hnext; by destruct Hnext].
    fold (yandex_exit_test p). rewrite <- Hsig.
    rewrite <- Nat.add_succ_comm in *.
    apply IH; [done|done| |lia]. intros j Hj. apply Hfirst. lia.
Qed.

Lemma yandex_listing_running fuel : ∀ k page product_list,
  Market.before server k = Some (page, product_list) →
  Market.listing server fuel k page product_list = None
  ↔ ∀ j, (k ≤ j < k + fuel)%nat →
      Market.signal server j = false
      ∧ is_Some (Market.before server (Datatypes.S j)).
Proof.
  induction fuel as [|fuel IH]; intros k tok pl Hb; cbn [Market.listing].
  - split; [intros _ j ?; lia|done].
  - pose proof (yandex_signal_at k tok pl Hb) as Hsig.
    pose proof (yandex_before_S k tok pl Hb) as HbS.
    unfold Market.get_product_list.
    destruct (server k tok) as [p|e].
    + fold (yandex_exit_test p). rewrite <- Hsig.
      destruct (Market.signal server k) eqn:Hk.
      * split; [done|]. intros H. destruct (H k) as [? _]; [lia|congruence].
      * cbn [negb]. rewrite (IH _ _ _ HbS). split.
        -- intros H j Hj. destruct (decide (j = k)) as [->|].
           ++ split; [done|]. rewrite HbS. eauto.
           ++ apply H. lia.
        -- intros H j Hj. apply H. lia.
    + split; [done|]. intros H. destruct (H k) as [_ [? Hs]]; [lia|].
      congruence.
Qed.

End YandexListing.

Lemma ozon_terminates server :
  terminates_on_signal (λ fuel, Seller.listing server fuel 0 (VStr "") [])
    (Seller.signal server) (Seller.before server) (Seller.collected server).
Proof.
  assert (Seller.before server 0 = Some (VStr "", [])) as Hb by done.
  split; [|split].
  - intros fuel r n. split.
    + intros Hrun.
      destruct (ozon_listing_exit server fuel 0 _ _ r n Hb Hrun)
        as (k & -> & Hk & Hs & Hfirst & Hcol).
      split; [|done]. exists k. split; [done|]. split; [lia|].
      split; [done|]. intros j Hj. apply Hfirst. lia.
    + intros [(k & -> & Hk & Hs & Hfirst) Hcol]. cbn [pred] in Hcol.
      destruct (ozon_listing_reach server k fuel 0 _ _ Hb Hs) as (r' & Hrun & Hr');
        [intros; apply Hfirst; lia|done|].
      cbn [Nat.add] in *. congruence.
  - intros fuel. rewrite (ozon_listing_running server fuel 0 _ _ Hb).
    unfold no_signal. split; intros H j Hj; apply H; lia.
  - intros k Hk. destruct (first_true _ k Hk) as (k' & Hle & Hs & Hfirst).
    destruct (ozon_listing_reach server k' (Datatypes.S k') 0 _ _ Hb Hs)
      as (r & _ & Hcol); [intros; apply Hfirst; lia|lia|].
    exists (Datatypes.S k'), r. split; [lia|]. intros fuel Hfuel.
    destruct (ozon_listing_reach server k' fuel 0 _ _ Hb Hs) as (r' & Hrun & Hr');
      [intros; apply Hfirst; lia|lia|].
    cbn [Nat.add] in *. congruence.
Qed.

Lemma yandex_terminates server :
  terminates_on_signal (λ fuel, Market.listing server fuel 0 (VStr "") [])
    (Market.signal server) (Market.before server) (Market.collected server).
Proof.
  assert (Market.before server 0 = Some (VStr "", [])) as Hb by done.
  split; [|split].
  - intros fuel r n. split.
    + intros Hrun.
      destruct (yandex_listing_exit server fuel 0 _ _ r n Hb Hrun)
        as (k & -> & Hk & Hs & Hfirst & Hcol).
      split; [|done]. exists k. split; [done|]. split; [lia|].
      split; [done|]. intros j Hj. apply Hfirst. lia.
    + intros [(k & -> & Hk & Hs & Hfirst) Hcol]. cbn [pred] in Hcol.
      destruct (yandex_listing_reach server k fuel 0 _ _ Hb Hs)
        as (r' & Hrun & Hr'); [intros; apply Hfirst; lia|done|].
      cbn [Nat.add] in *. congruence.
  - intros fuel. rewrite (yandex_listing_running server fuel 0 _ _ Hb).
    unfold no_signal. split; intros H j Hj; apply H; lia.
  - intros k Hk. destruct (first_true _ k Hk) as (k' & Hle & Hs & Hfirst).
    destruct (yandex_listing_reach server k' (Datatypes.S k') 0 _ _ Hb Hs)
      as (r & _ & Hcol); [intros; apply Hfirst; lia|lia|].
    exists (Datatypes.S k'), r. split; [lia|]. intros fuel Hfuel.
    destruct (yandex_listing_reach server k' fuel 0 _ _ Hb Hs)
      as (r' & Hrun & Hr'); [intros; apply Hfirst; lia|lia|].
    cbn [Nat.add] in *. congruence.
Qed.

(** [C7] The paging loop of each marketplace leaves exactly when the signal
    of that marketplace occurs: at Ozon, when the reported total equals the
    number of products collected; at Yandex, when the continuation token of
    the answer is empty or absent.  Whenever the signal occurs at some
    answer, [get_offer_ids] returns. *)
Theorem listing_terminates :
  (∀ server,
     terminates_on_signal (λ fuel, Seller.listing server fuel 0 (VStr "") [])
       (Seller.signal server) (Seller.before server) (Seller.collected server))
  ∧ (∀ server,
       terminates_on_signal (λ fuel, Market.listing server fuel 0 (VStr "") [])
         (Market.signal server) (Market.before server) (Market.collected server))
  ∧ (∀ server k, Seller.signal server k = true →
       ∃ n res, (n ≤ Datatypes.S k)%nat
                ∧ ∀ fuel, (n ≤ fuel)%nat →
                    Seller.get_offer_ids server fuel = Some (res, n))
  ∧ (∀ server k, Market.signal server k = true →
       ∃ n res, (n ≤ Datatypes.S k)%nat
                ∧ ∀ fuel, (n ≤ fuel)%nat →
                    Market.get_offer_ids server fuel = Some (res, n)).
Proof.
  split; [apply ozon_terminates|]. split; [apply yandex_terminates|]. split.
  - intros server k Hk.
    destruct (proj2 (proj2 (ozon_terminates server)) k Hk) as (n & r & Hn & Hrun).
    eexists n, _. split; [done|]. intros fuel Hfuel.
    unfold Seller.get_offer_ids. by rewrite (Hrun fuel Hfuel).
  - intros server k Hk.
    destruct (proj2 (proj2 (yandex_terminates server)) k Hk) as (n & r & Hn & Hrun).
    eexists n, _. split; [done|]. intros fuel Hfuel.
    unfold Market.get_offer_ids. by rewrite (Hrun fuel Hfuel).
Qed.

Lemma listing_terminates_witness :
  ∃ n res, (n ≤ 2)%nat
           ∧ ∀ fuel, (n ≤ fuel)%nat →
               Seller.get_offer_ids ozon_two_pages fuel = Some (res, n).
Proof.
  apply (proj1 (proj2 (proj2 listing_terminates)) ozon_two_pages 1%nat).
  vm_compute. reflexivity.
Defined.

(** ** Feed loader *)

(** [C6] [download_stock] removes "ostatki.xls" when the spreadsheet is
    parsed; when parsing raises, the exception leaves the function before
    the removal, and the file stays in the working directory. *)
Theorem download_stock_scratch_file :
  (∀ (members : list string) watch_remnants files,
     Seller.excel_file ∈ members →
     fst (Seller.download_stock (Ok members) (Ok watch_remnants) files)
     = Ok watch_remnants
     ∧ Seller.excel_file
       ∉ snd (Seller.download_stock (Ok members) (Ok watch_remnants) files))
  ∧ (∀ (members : list string) e files,
       Seller.excel_file ∈ members →
       fst (Seller.download_stock (Ok members) (Raise e) files) = Raise e
       ∧ Seller.excel_file
         ∈ snd (Seller.download_stock (Ok members) (Raise e) files))
  ∧ fst (Seller.download_stock (Ok ["ostatki.xls"]) (Raise ParseError) ∅)
    = Raise ParseError
  ∧ "ostatki.xls"
    ∈ snd (Seller.download_stock (Ok ["ostatki.xls"]) (Raise ParseError) ∅).
Proof.
  assert (∀ (members : list string) (files : gset string),
            Seller.excel_file ∈ members →
            Seller.excel_file ∈ list_to_set (C := gset string) members ∪ files)
    as Hextracted.
  { intros members files Hm. apply elem_of_union_l.
    by apply elem_of_list_to_set. }
  assert (∀ (members : list string) e files,
            Seller.excel_file ∈ members →
            fst (Seller.download_stock (Ok members) (Raise e) files) = Raise e
            ∧ Seller.excel_file
              ∈ snd (Seller.download_stock (Ok members) (Raise e) files))
    as Hraise.
  { intros members e files Hm. unfold Seller.download_stock.
    rewrite decide_True by by apply Hextracted. split; [done|].
    by apply Hextracted. }
  split; [|split; [done|]].
  - intros members rows files Hm. unfold Seller.download_stock.
    rewrite decide_True by by apply Hextracted. split; [done|].
    cbn [snd]. rewrite elem_of_difference. intros [_ Hn]. apply Hn.
    by apply elem_of_singleton.
  - apply (Hraise ["ostatki.xls"] ParseError ∅). apply list_elem_of_here.
Qed.

Lemma download_stock_scratch_file_witness :
  "ostatki.xls"
  ∈ snd (Seller.download_stock (Ok ["readme.txt"; "ostatki.xls"])
           (Raise ParseError) ∅).
Proof.
  apply (proj1 (proj2 download_stock_scratch_file)
           ["readme.txt"; "ostatki.xls"] ParseError ∅).
  apply list_elem_of_further, list_elem_of_here.
Defined.

(** * Further properties *)

(** ** When reconciliation returns, and what it refers to *)

Lemma for_each_returns {A B} (f : A → result B) l :
  (∀ x, x ∈ l → ∃ y, f x = Ok y) → ∃ m, for_each f l = Ok m.
Proof.
  induction l as [|x l IH]; intros Hl; [by eexists|].
  destruct (Hl x) as [y Hy]; [by left|].
  destruct IH as [m Hm]; [intros z Hz; apply Hl; by right|].
  exists (y :: m). cbn. by rewrite Hy, Hm.
Qed.

Lemma matched_rows_listed w feed : ∀ ids,
  w ∈ matched_rows feed ids → w ∈ feed ∧ code w ∈ ids.
Proof.
  induction feed as [|v feed IH]; intros ids; cbn [matched_rows].
  - by intros ?%elem_of_nil.
  - case_bool_decide as Hin.
    + intros [->|Hw]%elem_of_cons; [split; [by left|done]|].
      destruct (IH _ Hw) as [? Hc]. split; [by right|].
      eapply elem_of_sublist; [done|apply remove_first_sublist].
    + intros Hw. destruct (IH _ Hw). split; [by right|done].
Qed.

Lemma create_stocks_returns {S} (mk : string → Z → S) feed ids :
  (∀ w, w ∈ feed → code w ∈ ids → ∃ q, Reconcile.stock_of w = Ok q) →
  ∃ stocks ids', Reconcile.create_stocks mk feed ids = (Ok stocks, ids').
Proof.
  intros Hq.
  destruct (for_each_returns (emit mk) (matched_rows feed ids)) as [m Hm].
  { intros w [Hw Hc]%matched_rows_listed. destruct (Hq w Hw Hc) as [q Hw'].
    exists (mk (code w) q). unfold emit. by rewrite Hw'. }
  pose proof (create_stocks_fst mk feed ids) as Hfst. rewrite Hm in Hfst.
  destruct (Reconcile.create_stocks mk feed ids) as [r ids']. cbn in Hfst.
  subst r. by eexists _, _.
Qed.

(** [X1] [create_stocks] returns whenever every feed row whose code is a
    listed identifier has an accepted quantity: the quantity of a row that is
    not listed is never converted. *)
Theorem create_stocks_reads_listed_rows :
  (∀ feed ids,
     (∀ w, w ∈ feed → code w ∈ ids → ∃ q, Reconcile.stock_of w = Ok q) →
     ∃ stocks ids', Seller.create_stocks feed ids = (Ok stocks, ids'))
  ∧ (∀ date warehouse_id feed ids,
       (∀ w, w ∈ feed → code w ∈ ids → ∃ q, Reconcile.stock_of w = Ok q) →
       ∃ stocks ids',
         Market.create_stocks date feed warehouse_id ids = (Ok stocks, ids')).
Proof. split; intros; by apply create_stocks_returns. Qed.

Lemma create_stocks_reads_listed_rows_witness :
  ∃ stocks ids',
    Seller.create_stocks
      [row (VStr "A") (VInt 4) (VStr "10.00");
       row (VStr "Z") (VStr "many") (VStr "1.00")]
      ["A"; "B"]
    = (Ok stocks, ids').
Proof.
  apply (proj1 create_stocks_reads_listed_rows).
  intros w Hw Hc.
  apply elem_of_cons in Hw as [->|Hw]; [by exists 4|].
  apply elem_of_cons in Hw as [->|Hw]; [|by apply elem_of_nil in Hw].
  exfalso. revert Hc. vm_compute. intros Hc.
  repeat (apply elem_of_cons in Hc as [Hc|Hc]; [discriminate Hc|]).
  by apply elem_of_nil in Hc.
Defined.

Lemma elem_of_map_1 {A B} (f : A → B) (l : list A) x : x ∈ l → f x ∈ map f l.
Proof. intros Hx. by apply list_elem_of_In, in_map, list_elem_of_In. Qed.

Lemma elem_of_map_inv {A B} (f : A → B) (l : list A) y :
  y ∈ map f l → ∃ x, y = f x ∧ x ∈ l.
Proof.
  intros Hy. apply list_elem_of_In, in_map_iff in Hy as (x & <- & Hx).
  exists x. split; [done|]. by apply list_elem_of_In.
Qed.

Lemma create_within {S P} (mk : string → Z → S) (mk_price : dict → result P)
    (key : S → string) (pkey : P → string) feed ids stocks prices ids1 ids2 :
  (∀ x q, key (mk x q) = x) →
  (∀ w p, mk_price w = Ok p → pkey p = code w) →
  Reconcile.create_stocks mk feed ids = (Ok stocks, ids1) →
  Reconcile.create_prices mk_price feed ids = (Ok prices, ids2) →
  within key pkey feed ids stocks prices.
Proof.
  intros Hkey Hpkey Hs Hp.
  apply (create_stocks_shape _ _ Hkey) in Hs as (-> & matched & _ & Hkeys & ->).
  apply (create_prices_shape _ _ Hpkey) in Hp as (_ & _ & Hpkeys).
  assert (map key (matched ++ map (λ x, mk x 0) (remaining feed ids)) ≡ₚ ids)
    as Hperm.
  { rewrite map_app, (map_key_zero _ _ Hkey), Hkeys.
    symmetry. apply matched_remaining_perm. }
  split; [|split].
  - intros s Hs. rewrite <- Hperm. by apply elem_of_map_1.
  - intros p Hin. apply (elem_of_map_1 pkey) in Hin. rewrite Hpkeys in Hin.
    apply elem_of_map_inv in Hin as (w & -> & [Hw Hf]%list_elem_of_filter).
    split; [done|by apply elem_of_map_1].
  - rewrite <- (length_map key). by apply Permutation_length.
Qed.

(** [X2] No update refers to an identifier the marketplace does not list:
    the stock updates name listed identifiers only, and there are as many of
    them as identifiers; a price update names a listed identifier that is the
    code of a feed row. *)
Theorem updates_within_catalogue :
  (∀ feed ids stocks prices ids1 ids2,
     Seller.create_stocks feed ids = (Ok stocks, ids1) →
     Seller.create_prices feed ids = (Ok prices, ids2) →
     within Seller.stock_offer_id Seller.price_offer_id feed ids stocks prices)
  ∧ (∀ date warehouse_id feed ids stocks prices ids1 ids2,
       Market.create_stocks date feed warehouse_id ids = (Ok stocks, ids1) →
       Market.create_prices feed ids = (Ok prices, ids2) →
       within Market.sku Market.id feed ids stocks prices).
Proof.
  split.
  - intros feed ids stocks prices ids1 ids2.
    apply create_within; [apply seller_key|apply seller_price_key].
  - intros date wh feed ids stocks prices ids1 ids2.
    apply create_within; [apply market_key|apply market_price_key].
Qed.

Lemma updates_within_catalogue_witness :
  within Seller.stock_offer_id Seller.price_offer_id
    (feed_ab ++ [row (VStr "Z") (VInt 2) (VStr "3.00")]) ["C"; "B"]
    [Seller.Stock "B" 0; Seller.Stock "C" 0]
    [Seller.Price "UNKNOWN" "RUB" "B" "0" "50"].
Proof.
  apply (proj1 updates_within_catalogue _ ["C"; "B"] _ _ ["C"] ["C"; "B"]);
    vm_compute; reflexivity.
Defined.

(** ** The order of the stock updates *)

Lemma elem_of_remove_first_ne x c l :
  x ≠ c → x ∈ remove_first c l ↔ x ∈ l.
Proof.
  intros Hne. induction l as [|y l IH]; cbn [remove_first]; [done|].
  destruct (decide (y = c)) as [->|Hy].
  - rewrite elem_of_cons. split; [by right|by intros [?|?]].
  - rewrite !elem_of_cons, IH. done.
Qed.

Lemma map_code_filter (ids : list string) (feed : list dict) :
  map code (filter (λ w, code w ∈ ids) feed)
  = filter (λ x, x ∈ ids) (map code feed).
Proof.
  induction feed as [|w feed IH]; [done|].
  cbn [map]. rewrite !filter_cons.
  destruct (decide (code w ∈ ids)); cbn [map]; by rewrite IH.
Qed.

Lemma matched_rows_NoDup feed : ∀ ids,
  NoDup (map code feed) →
  map code (matched_rows feed ids) = filter (λ x, x ∈ ids) (map code feed).
Proof.
  induction feed as [|w feed IH]; intros ids Hnd; [done|].
  cbn [map] in Hnd. apply NoDup_cons in Hnd as [Hw Hnd].
  cbn [matched_rows map]. rewrite filter_cons.
  case_bool_decide as Hin.
  - rewrite decide_True by done. cbn [map]. f_equal.
    rewrite IH by done. apply filter_ext_elem. intros x Hx.
    apply elem_of_remove_first_ne. by intros ->.
  - rewrite decide_False by done. by apply IH.
Qed.

Lemma create_stocks_order {S} (mk : string → Z → S) (key : S → string)
    feed ids stocks ids' :
  (∀ x q, key (mk x q) = x) →
  NoDup ids → NoDup (map code feed) →
  Reconcile.create_stocks mk feed ids = (Ok stocks, ids') →
  map key stocks
  = filter (λ x, x ∈ ids) (map code feed)
    ++ filter (λ x, x ∉ map code feed) ids.
Proof.
  intros Hkey Hids Hfeed Hs.
  apply (create_stocks_shape _ _ Hkey) in Hs as (-> & matched & _ & Hkeys & ->).
  rewrite map_app, (map_key_zero _ _ Hkey), Hkeys.
  by rewrite matched_rows_NoDup, remaining_NoDup.
Qed.

(** [X3] When no identifier is listed twice and no code occurs twice in the
    feed, the stock updates are those of the feed rows with a listed code, in
    the order of the feed, followed by those of the identifiers that are the
    code of no row, in the order of the listing. *)
Theorem stock_updates_order :
  (∀ feed ids stocks ids',
     NoDup ids → NoDup (map code feed) →
     Seller.create_stocks feed ids = (Ok stocks, ids') →
     map Seller.stock_offer_id stocks
     = filter (λ x, x ∈ ids) (map code feed)
       ++ filter (λ x, x ∉ map code feed) ids)
  ∧ (∀ date warehouse_id feed ids stocks ids',
       NoDup ids → NoDup (map code feed) →
       Market.create_stocks date feed warehouse_id ids = (Ok stocks, ids') →
       map Market.sku stocks
       = filter (λ x, x ∈ ids) (map code feed)
         ++ filter (λ x, x ∉ map code feed) ids).
Proof.
  split.
  - intros feed ids stocks ids'. apply create_stocks_order, seller_key.
  - intros date wh feed ids stocks ids'. apply create_stocks_order, market_key.
Qed.

Lemma stock_updates_order_witness :
  map Seller.stock_offer_id
    [Seller.Stock "A" 100; Seller.Stock "B" 0;
     Seller.Stock "D" 0; Seller.Stock "C" 0]
  = filter (λ x, x ∈ ["D"; "B"; "C"; "A"]) (map code feed_ab)
    ++ filter (λ x, x ∉ map code feed_ab) ["D"; "B"; "C"; "A"].
Proof.
  apply (proj1 stock_updates_order feed_ab ["D"; "B"; "C"; "A"] _ ["D"; "C"]).
  - apply (bool_decide_unpack _). vm_compute. exact I.
  - apply (bool_decide_unpack _). vm_compute. exact I.
  - vm_compute. reflexivity.
Defined.

(** ** Empty feed, empty catalogue *)

Lemma match_stocks_no_ids {S} (mk : string → Z → S) feed : ∀ acc,
  Reconcile.match_stocks mk feed acc [] = (Ok acc, []).
Proof.
  induction feed as [|w feed IH]; intros acc; [done|].
  cbn [Reconcile.match_stocks]. unfold bindM at 1, contains.
  rewrite bool_decide_false by apply not_elem_of_nil. apply IH.
Qed.

Lemma match_prices_no_ids {P} (mk : dict → result P) feed : ∀ acc,
  Reconcile.match_prices mk feed acc [] = (Ok acc, []).
Proof.
  induction feed as [|w feed IH]; intros acc; [done|].
  cbn [Reconcile.match_prices]. unfold bindM at 1, contains.
  rewrite bool_decide_false by apply not_elem_of_nil. apply IH.
Qed.

(** [X4] With an empty catalogue nothing is emitted and no cell of the feed
    is converted, whatever the feed holds; with an empty feed every listed
    identifier gets a zero stock update, the list is left whole, and no price
    is built. *)
Theorem reconciliation_empty_inputs :
  (∀ feed, Seller.create_stocks feed [] = (Ok [], []))
  ∧ (∀ feed, Seller.create_prices feed [] = (Ok [], []))
  ∧ (∀ date warehouse_id feed,
       Market.create_stocks date feed warehouse_id [] = (Ok [], []))
  ∧ (∀ feed, Market.create_prices feed [] = (Ok [], []))
  ∧ (∀ ids, Seller.create_stocks [] ids
            = (Ok (map (λ x, Seller.Stock x 0) ids), ids))
  ∧ (∀ date warehouse_id ids,
       Market.create_stocks date [] warehouse_id ids
       = (Ok (map (λ x, Market.Stock x warehouse_id [Market.Item 0 "FIT" date])
                ids), ids))
  ∧ (∀ ids, Seller.create_prices [] ids = (Ok [], ids))
  ∧ (∀ ids, Market.create_prices [] ids = (Ok [], ids)).
Proof.
  split_and!; try done.
  - intros feed. unfold Seller.create_stocks, Reconcile.create_stocks, bindM.
    by rewrite match_stocks_no_ids.
  - intros feed. apply match_prices_no_ids.
  - intros date wh feed.
    unfold Market.create_stocks, Reconcile.create_stocks, bindM.
    by rewrite match_stocks_no_ids.
  - intros feed. apply match_prices_no_ids.
Qed.

(** ** The prices of [seller.py] *)

Lemma seller_mk_price_string w s :
  get "Цена" w = VStr s →
  ∃ r, Seller.mk_price w = Ok (Seller.Price "UNKNOWN" "RUB" (code w) "0" r)
       ∧ Forall (λ c, is_digit c = true) (list_ascii_of_string r).
Proof.
  intros Hs. unfold Seller.mk_price. rewrite Hs. cbn [Seller.price_conversion_cell].
  destruct (price_conversion_digits s) as (r & -> & Hr). by exists r.
Qed.

(** [X5] The [create_prices] of [seller.py] returns whenever the price of
    every feed row with a listed code is a string.  It then gives one price
    per such row, in the order of the feed and with repeated codes repeated,
    each with the fixed fields "UNKNOWN", "RUB", "0" and a price made of
    digits only.  On the example of its docstring it gives what the
    docstring shows. *)
Theorem seller_create_prices_rows :
  (∀ feed ids,
     (∀ w, w ∈ feed → code w ∈ ids → ∃ s, get "Цена" w = VStr s) →
     ∃ prices,
       Seller.create_prices feed ids = (Ok prices, ids)
       ∧ map Seller.price_offer_id prices
         = filter (λ x, x ∈ ids) (map code feed)
       ∧ Forall seller_price_shape prices)
  ∧ Seller.create_prices docstring_feed ["123"; "789"]
    = (Ok [Seller.Price "UNKNOWN" "RUB" "123" "0" "5990"], ["123"; "789"]).
Proof.
  split; [|by vm_compute].
  intros feed ids Hstr.
  destruct (for_each_returns Seller.mk_price (filter (λ w, code w ∈ ids) feed))
    as [prices Hp].
  { intros w [Hc Hw]%list_elem_of_filter. destruct (Hstr w Hw Hc) as [s Hs].
    destruct (seller_mk_price_string w s Hs) as (r & Hr & _). eauto. }
  exists prices.
  pose proof (match_prices_fst Seller.mk_price feed [] ids) as Hfst.
  pose proof (match_prices_snd Seller.mk_price feed [] ids) as Hsnd.
  rewrite Hp in Hfst. unfold Seller.create_prices, Reconcile.create_prices.
  destruct (Reconcile.match_prices _ _ _ _) as [r ids']. cbn in Hfst, Hsnd.
  subst r ids'. split; [done|]. split.
  - rewrite <- map_code_filter.
    eapply for_each_map_key; [apply seller_price_key|done].
  - apply for_each_Forall2 in Hp.
    induction Hp as [|w p l m Hwp _ IH]; [constructor|].
    assert (w ∈ w :: l) as Hin by by left.
    constructor.
    + unfold Seller.mk_price in Hwp.
      destruct (get "Цена" w) as [|s|] eqn:Hs; try done.
      destruct (seller_mk_price_string w s Hs) as (r & Hr & Hd).
      unfold Seller.mk_price in Hr. rewrite Hs in Hr. rewrite Hr in Hwp.
      injection Hwp as <-. by repeat split.
    + apply IH.
Qed.

Lemma seller_create_prices_rows_witness :
  ∃ prices,
    Seller.create_prices feed_twice ["A"] = (Ok prices, ["A"])
    ∧ map Seller.price_offer_id prices
      = filter (λ x, x ∈ ["A"]) (map code feed_twice)
    ∧ Forall seller_price_shape prices.
Proof.
  apply (proj1 seller_create_prices_rows feed_twice ["A"]).
  intros w Hw _.
  apply elem_of_cons in Hw as [->|Hw]; [by eexists|].
  apply elem_of_cons in Hw as [->|Hw]; [by eexists|].
  by apply elem_of_nil in Hw.
Defined.

(** ** Prices that are already normal, and their integer value *)

Lemma split_no_sep sep s :
  sep ∉ list_ascii_of_string s → split sep s = [s].
Proof.
  induction s as [|c s IH]; cbn; intros Hs; [done|].
  apply not_elem_of_cons in Hs as [Hc Hs].
  destruct (Ascii.eqb_spec c sep) as [->|_]; [done|]. by rewrite IH.
Qed.

Lemma re_sub_outside_id lo hi s :
  Forall (λ c, (N_of_ascii lo <= N_of_ascii c <= N_of_ascii hi)%N)
    (list_ascii_of_string s) →
  re_sub_outside lo hi s = s.
Proof.
  induction s as [|c s IH]; cbn; [done|].
  intros [[Hlo Hhi] Hs]%Forall_cons.
  apply N.leb_le in Hlo, Hhi. rewrite Hlo, Hhi. cbn. by rewrite IH.
Qed.

Lemma digits_in_range s :
  Forall (λ c, is_digit c = true) (list_ascii_of_string s) →
  Forall (λ c, (N_of_ascii "0" <= N_of_ascii c <= N_of_ascii "9")%N)
    (list_ascii_of_string s).
Proof.
  intros Hd. eapply Forall_impl; [exact Hd|].
  intros c [Hlo Hhi]%andb_prop. apply N.leb_le in Hlo, Hhi. done.
Qed.

Lemma digits_dotless s :
  Forall (λ c, is_digit c = true) (list_ascii_of_string s) →
  "."%char ∉ list_ascii_of_string s.
Proof.
  intros Hd Hin. rewrite Forall_forall in Hd. by specialize (Hd _ Hin).
Qed.

(** [X6] [price_conversion] leaves a string of digits as it is; applied to
    its own result it changes nothing. *)
Theorem price_conversion_idempotent :
  (∀ s, Forall (λ c, is_digit c = true) (list_ascii_of_string s) →
        Seller.price_conversion s = Ok s)
  ∧ (∀ price r, Seller.price_conversion price = Ok r →
                Seller.price_conversion r = Ok r).
Proof.
  assert (∀ s, Forall (λ c, is_digit c = true) (list_ascii_of_string s) →
               Seller.price_conversion s = Ok s) as Hfix.
  { intros s Hd. unfold Seller.price_conversion.
    rewrite split_no_sep by by apply digits_dotless. cbn.
    by rewrite re_sub_outside_id by by apply digits_in_range. }
  split; [done|]. intros price r Hr. apply Hfix.
  destruct (price_conversion_digits price) as (r' & Hr' & Hd). congruence.
Qed.

Lemma price_conversion_idempotent_witness :
  Seller.price_conversion "5990" = Ok "5990".
Proof.
  apply (proj2 price_conversion_idempotent "5'990.00 руб." "5990").
  vm_compute. reflexivity.
Defined.

Lemma digit_value_nonneg c : is_digit c = true → 0 <= digit_value c.
Proof.
  unfold is_digit, digit_value. intros [Hlo _]%andb_prop.
  apply N.leb_le in Hlo. lia.
Qed.

Lemma int_digits_of_digits s : ∀ prev acc,
  Forall (λ c, is_digit c = true) (list_ascii_of_string s) →
  s ≠ EmptyString ∨ prev = true → 0 <= acc →
  ∃ v, int_digits prev acc s = Some v ∧ 0 <= v.
Proof.
  induction s as [|c s IH]; intros prev acc Hd Hne Hacc; cbn [int_digits].
  - destruct Hne as [?| ->]; [done|]. by exists acc.
  - cbn in Hd. apply Forall_cons in Hd as [Hc Hd]. rewrite Hc.
    apply IH; [done|by right|]. pose proof (digit_value_nonneg c Hc). lia.
Qed.

Lemma digit_not_space c : is_digit c = true → is_space c = false.
Proof.
  unfold is_digit, is_space. intros [Hlo Hhi]%andb_prop.
  apply N.leb_le in Hlo, Hhi.
  apply orb_false_intro; apply andb_false_iff.
  - right. apply N.leb_gt. lia.
  - right. apply N.leb_gt. lia.
Qed.

Lemma int_of_digits s :
  Forall (λ c, is_digit c = true) (list_ascii_of_string s) →
  s ≠ EmptyString →
  ∃ v, int_of_string s = Ok v ∧ 0 <= v.
Proof.
  intros Hd Hne.
  destruct (int_digits_of_digits s false 0 Hd (or_introl Hne)) as (v & Hv & Hv0);
    [done|].
  exists v. split; [|done]. unfold int_of_string, strip.
  destruct s as [|c s]; [done|].
  pose proof Hd as Hd'. cbn in Hd'. apply Forall_cons in Hd' as [Hc _].
  rewrite lstrip_id by by apply digit_not_space.
  rewrite rstrip_id
    by (eapply Forall_impl; [exact Hd|]; intros; by apply digit_not_space).
  assert (c ≠ "-"%char ∧ c ≠ "+"%char) as [Hm Hp]
    by (split; intros ->; discriminate Hc).
  assert (match String c s with
          | String "-" r => (-1, r)
          | String "+" r => (1, r)
          | _ => (1, String c s)
          end = (1, String c s)) as ->.
  { destruct c as [[] [] [] [] [] [] [] []]; try done. }
  rewrite Hv. f_equal. lia.
Qed.

(** [X7] The price [market.py] converts with [int] is a non-negative integer
    whenever [price_conversion] leaves a digit, the literal being within the
    4300 digits the interpreter converts: a listed row with a string price
    can stop [create_prices] only by having no digit before its first ".". *)
Theorem market_price_value :
  ∀ price r,
    Seller.price_conversion price = Ok r →
    r ≠ EmptyString →
    (String.length r ≤ 4300)%nat →
    ∃ v, int (VStr r) = Ok v ∧ 0 <= v
         ∧ ∀ watch, get "Цена" watch = VStr price →
             Market.mk_price watch
             = Ok (Market.Price (code watch) (Market.PriceValue v "RUR")).
Proof.
  intros price r Hr Hne _.
  destruct (price_conversion_digits price) as (r' & Hr' & Hd).
  assert (r' = r) as -> by congruence.
  destruct (int_of_digits r Hd Hne) as (v & Hv & Hv0).
  exists v. split; [done|]. split; [done|].
  intros watch Hw. unfold Market.mk_price. rewrite Hw.
  cbn [Seller.price_conversion_cell]. rewrite Hr. cbn [bind int]. by rewrite Hv.
Qed.

Lemma market_price_value_witness :
  ∃ v, int (VStr "5990") = Ok v ∧ 0 <= v
       ∧ ∀ watch, get "Цена" watch = VStr "5'990.00 руб." →
           Market.mk_price watch
           = Ok (Market.Price (code watch) (Market.PriceValue v "RUR")).
Proof.
  apply (market_price_value "5'990.00 руб." "5990").
  - vm_compute. reflexivity.
  - discriminate.
  - vm_compute. lia.
Defined.

(** ** Integer quantities *)

(** [X8] For an integer quantity cell, of a size the interpreter prints,
    the stock is the integer itself, except that 1 becomes 0: no integer
    prints as ">10", and 1 alone prints as "1".  A row without the quantity
    column raises [TypeError]. *)
Theorem stock_of_integer_cell :
  (∀ watch z, get "Количество" watch = VInt z → Z.abs z < 10 ^ 4300 →
     Reconcile.stock_of watch = Ok (if z =? 1 then 0 else z))
  ∧ (∀ watch : dict, watch !! "Количество" = None →
       Reconcile.stock_of watch = Raise TypeError).
Proof.
  split.
  - intros watch z Hz _. unfold Reconcile.stock_of. rewrite Hz.
    pose proof (int_str_round_trip z) as Hrt.
    destruct (decide (str (VInt z) = ">10")) as [E|_].
    { rewrite E in Hrt. discriminate Hrt. }
    destruct (decide (str (VInt z) = "1")) as [E|Hne].
    + rewrite E in Hrt. injection Hrt as <-. done.
    + destruct (Z.eqb_spec z 1) as [->|]; [by destruct Hne|done].
  - intros watch Hnone. unfold Reconcile.stock_of, get. by rewrite Hnone.
Qed.

Lemma stock_of_integer_cell_witness :
  Reconcile.stock_of (row (VStr "A") (VInt 1) (VStr "3.00")) = Ok 0.
Proof.
  apply (proj1 stock_of_integer_cell (row (VStr "A") (VInt 1) (VStr "3.00")) 1).
  - vm_compute. reflexivity.
  - apply Z.ltb_lt. vm_compute. reflexivity.
Defined.

(** ** Batches within the ceiling *)

Lemma divide_chunk_bounds {A} (lst : list A) (n : Z) :
  0 < n →
  Forall (λ chunk, (0 < length chunk ≤ Z.to_nat n)%nat)
    (yielded (Seller.divide lst n)).
Proof.
  intros Hn. rewrite divide_pos by done. cbn [yielded].
  set (len := Z.of_nat (length lst)).
  assert (0 <= len) as Hlen by lia.
  pose proof (chunk_count_bounds len n Hn Hlen) as Hm. cbv zeta in Hm.
  set (m := (len + n - 1) / n) in *.
  apply Forall_forall. intros chunk Hc.
  apply elem_of_map_inv in Hc as (k & -> & Hk).
  apply list_elem_of_In, in_seq in Hk.
  rewrite length_take, length_drop.
  destruct Hm as [Hm|[_ Hm]]; [|lia]. subst len. nia.
Qed.

(** [X9] For a positive [n] no batch that [divide] yields is empty and none
    is longer than [n]; an empty list gives no batch, and a non-empty list of
    at most [n] elements gives the list itself as the only batch. *)
Theorem divide_batch_ceiling :
  ∀ (A : Type) (lst : list A) (n : Z), 0 < n →
    Forall (λ chunk, (0 < length chunk ≤ Z.to_nat n)%nat)
      (yielded (Seller.divide lst n))
    ∧ (lst = [] → yielded (Seller.divide lst n) = [])
    ∧ (lst ≠ [] → Z.of_nat (length lst) <= n →
       yielded (Seller.divide lst n) = [lst]).
Proof.
  intros A lst n Hn. split; [by apply divide_chunk_bounds|]. split.
  - intros ->. rewrite divide_pos by done.
    replace ((Z.of_nat (length (@nil A)) + n - 1) / n) with 0; [done|].
    symmetry. apply Z.div_small. cbn. lia.
  - intros Hne Hle. rewrite divide_pos by done. cbn [yielded].
    assert (0 < Z.of_nat (length lst)) by (destruct lst; [done|cbn; lia]).
    replace ((Z.of_nat (length lst) + n - 1) / n) with 1.
    + change (Z.to_nat 1) with 1%nat. cbn [seq map Nat.mul].
      rewrite drop_0, take_ge by lia. done.
    + apply Z.div_unique with (r := Z.of_nat (length lst) - 1); lia.
Qed.

Lemma divide_batch_ceiling_witness :
  yielded (Seller.divide ["a"; "b"; "c"] 100) = [["a"; "b"; "c"]].
Proof.
  assert (0 < 100) as Hn by lia.
  apply (proj2 (proj2 (divide_batch_ceiling string ["a"; "b"; "c"] 100 Hn)));
    [discriminate|cbn; lia].
Defined.

(** ** Pushing the batches *)

Lemma push_from_spec {A} (update : nat → list A → result unit) batches : ∀ k,
  pushes_of (λ i, update (k + i)%nat) batches
    (fst (push_from update k batches)) (snd (push_from update k batches)).
Proof.
  induction batches as [|b batches IH]; intros k; cbn [push_from].
  - split; [done|]. intros i b' Hi. by rewrite lookup_nil in Hi.
  - destruct (update k b) as [[]|e] eqn:Hb.
    + specialize (IH (Datatypes.S k)).
      destruct (push_from update (Datatypes.S k) batches) as [pushed [e|]];
        cbn [fst snd pushes_of] in *.
      * destruct IH as (j & b' & -> & Hj & Hraise & Hbefore).
        exists (Datatypes.S j), b'. split; [done|]. split; [done|].
        split; [by rewrite Nat.add_succ_r|].
        intros [|i] b'' Hi Hb''.
        -- rewrite Nat.add_0_r. cbn in Hb''. by injection Hb'' as <-.
        -- rewrite Nat.add_succ_r. apply (Hbefore i); [lia|done].
      * destruct IH as [-> Hall]. split; [done|].
        intros [|i] b' Hi.
        -- rewrite Nat.add_0_r. cbn in Hi. by injection Hi as <-.
        -- rewrite Nat.add_succ_r. by apply (Hall i).
    + cbn [fst snd pushes_of]. exists 0%nat, b.
      split; [by destruct batches|]. split; [done|].
      split; [by rewrite Nat.add_0_r|]. intros; lia.
Qed.

Lemma pushes_of_prefix {A} (update : nat → list A → result unit)
    batches pushed raised :
  pushes_of update batches pushed raised → pushed `prefix_of` batches.
Proof.
  destruct raised as [e|]; cbn.
  - intros (j & b & -> & _). apply prefix_take.
  - by intros [-> _].
Qed.

Lemma push_batches_spec_bounds {A} (update : nat → list A → result unit)
    (lst : list A) (n : Z) :
  0 < n →
  Forall (λ b, (0 < length b ≤ Z.to_nat n)%nat) (fst (push_batches update lst n)).
Proof.
  intros Hn. pose proof (divide_chunk_bounds lst n Hn) as Hbounds.
  unfold push_batches. rewrite divide_pos in * by done. cbn [yielded] in *.
  set (chunks := map _ _) in *.
  pose proof (push_from_spec update chunks 0) as Hspec.
  apply (pushes_of_prefix (λ i, update (0 + i)%nat)) in Hspec as [rest Hrest].
  rewrite Hrest in Hbounds. by apply Forall_app in Hbounds as [? _].
Qed.

Lemma push_batches_concat {A} (update : nat → list A → result unit)
    (lst : list A) (n : Z) :
  0 < n → snd (push_batches update lst n) = None →
  concat (fst (push_batches update lst n)) = lst.
Proof.
  intros Hn Hnone. unfold push_batches in *.
  rewrite divide_pos in * by done.
  set (chunks := map _ _) in *.
  pose proof (push_from_spec update chunks 0) as Hspec. rewrite Hnone in Hspec.
  destruct Hspec as [-> _]. subst chunks.
  pose proof (chunk_count_bounds (Z.of_nat (length lst)) n Hn ltac:(lia)) as Hm.
  cbv zeta in Hm. apply concat_chunks; [lia|]. nia.
Qed.

(** [X10] The loop [for batch in list(divide(lst, n)): update(batch)] of the
    upload functions and of [main], for a positive ceiling [n]: the batches
    pushed are the chunks of [lst] in order, none empty and none longer than
    [n]; when no push raises they hold every element of [lst] exactly once;
    when a push raises, the batches before it have been accepted and stay
    pushed, and no later batch is pushed. *)
Theorem push_batches_spec :
  ∀ (A : Type) (update : nat → list A → result unit) (lst : list A) (n : Z),
    0 < n →
    let pushed := fst (push_batches update lst n) in
    let raised := snd (push_batches update lst n) in
    pushes_of update (yielded (Seller.divide lst n)) pushed raised
    ∧ Forall (λ b, (0 < length b ≤ Z.to_nat n)%nat) pushed
    ∧ (raised = None → concat pushed = lst).
Proof.
  intros A update lst n Hn pushed raised. subst pushed raised.
  pose proof (divide_chunk_bounds lst n Hn) as Hbounds.
  pose proof (concat_chunks (Z.to_nat n)
                (Z.to_nat ((Z.of_nat (length lst) + n - 1) / n)) lst) as Hcat.
  pose proof (chunk_count_bounds (Z.of_nat (length lst)) n Hn ltac:(lia)) as Hm.
  cbv zeta in Hm.
  unfold push_batches. rewrite divide_pos in * by done. cbn [yielded] in *.
  set (chunks := map _ _) in *.
  pose proof (push_from_spec update chunks 0) as Hspec. cbn [Nat.add] in Hspec.
  assert (pushes_of update chunks (fst (push_from update 0 chunks))
            (snd (push_from update 0 chunks))) as Hspec' by exact Hspec.
  split; [done|]. split.
  - apply pushes_of_prefix in Hspec' as [rest Hrest].
    rewrite Hrest in Hbounds. by apply Forall_app in Hbounds as [? _].
  - intros Hnone. rewrite Hnone in Hspec'. destruct Hspec' as [-> _].
    apply Hcat; [lia|]. nia.
Qed.

Lemma push_batches_spec_witness :
  concat (fst (push_batches (λ _ _, Ok tt) ["a"; "b"; "c"] 2)) = ["a"; "b"; "c"].
Proof.
  assert (0 < 2) as Hn by lia.
  apply (proj2 (proj2 (push_batches_spec string (λ _ _, Ok tt)
                         ["a"; "b"; "c"] 2 Hn))).
  reflexivity.
Defined.

(** ** The upload functions and [main] *)

Lemma emit_built {S} (mk : string → Z → S) (feed rows : list dict) m :
  for_each (emit mk) rows = Ok m →
  Forall (λ w, w ∈ feed) rows →
  Forall (λ s, ∃ w q, w ∈ feed ∧ s = mk (code w) q) m.
Proof.
  intros Hm%for_each_Forall2.
  induction Hm as [|w s l m' Hws _ IH]; intros Hin; [constructor|].
  apply Forall_cons in Hin as [Hw Hin]. constructor; [|by apply IH].
  unfold emit in Hws. destruct (Reconcile.stock_of w) as [q|]; [|done].
  injection Hws as <-. by exists w, q.
Qed.

Lemma create_stocks_built {S} (mk : string → Z → S) feed ids stocks ids' :
  Reconcile.create_stocks mk feed ids = (Ok stocks, ids') →
  ∃ matched,
    stocks = matched ++ map (λ x, mk x 0) ids'
    ∧ Forall (λ s, ∃ w q, w ∈ feed ∧ s = mk (code w) q) matched.
Proof.
  intros Hrun. pose proof (create_stocks_snd _ _ _ _ _ Hrun) as ->.
  pose proof (create_stocks_fst mk feed ids) as Hfst.
  rewrite Hrun in Hfst. cbn [fst] in Hfst.
  destruct (for_each (emit mk) (matched_rows feed ids)) as [m|] eqn:Hm; [|done].
  injection Hfst as ->. exists m. split; [done|].
  eapply emit_built; [done|].
  apply Forall_forall. intros w Hw. by apply matched_rows_listed in Hw as [? _].
Qed.

Lemma market_filter_counted wh date (l : list Market.stock) :
  Forall (λ s, ∃ x q, s = Market.mk_stock wh date x q) l →
  MarketDriver.filter_each MarketDriver.counted l
  = Ok (filter (λ s, Market.quantity s ≠ Some 0) l).
Proof.
  induction 1 as [|s l (x & q & ->) _ IH]; [done|].
  rewrite filter_cons. cbn [MarketDriver.filter_each]. rewrite IH.
  change (MarketDriver.counted (Market.mk_stock wh date x q))
    with (Ok (negb (q =? 0)) : result bool).
  change (Market.quantity (Market.mk_stock wh date x q)) with (Some q).
  cbn [bind]. destruct (Z.eqb_spec q 0) as [->|Hq]; cbn [negb].
  - by rewrite decide_False by (intros Hn; by apply Hn).
  - rewrite decide_True; [done|]. intros [= ?]. done.
Qed.

Lemma filter_stocked {S} (mk : string → Z → S) (key : S → string)
    (qty : S → option Z) feed ids stocks ids' :
  (∀ x q, key (mk x q) = x) →
  (∀ x q, qty (mk x q) = Some q) →
  Reconcile.create_stocks mk feed ids = (Ok stocks, ids') →
  stocked key qty feed stocks (filter (λ s, qty s ≠ Some 0) stocks).
Proof.
  intros Hkey Hqty (matched & -> & Hbuilt)%create_stocks_built.
  split; [apply sublist_filter|].
  intros s [Hq [Hs|Hs]%elem_of_app]%list_elem_of_filter; split; try done.
  - rewrite Forall_forall in Hbuilt.
    destruct (Hbuilt s Hs) as (w & q & Hw & ->).
    rewrite Hkey. by apply elem_of_map_1.
  - apply elem_of_map_inv in Hs as (x & -> & _). by rewrite Hqty in Hq.
Qed.

(** [X11] What [upload_stocks] returns: the second component is what
    [create_stocks] built, the batches pushed hold it in order, and
    [not_empty] is a sub-list of it whose elements have a non-zero quantity
    and the code of a feed row, so that no identifier missing from the feed
    is in it.  In [market.py] the test that reads [items][0] never raises on
    what [create_stocks] built. *)
Theorem upload_stocks_not_empty :
  (∀ update feed ids not_empty stocks pushed,
     SellerDriver.upload_stocks update feed (Ok ids)
     = (Ok (not_empty, stocks), pushed) →
     fst (Seller.create_stocks feed ids) = Ok stocks
     ∧ concat pushed = stocks
     ∧ stocked Seller.stock_offer_id Seller.quantity feed stocks not_empty)
  ∧ (∀ date update feed ids warehouse_id stocks ids',
       Market.create_stocks date feed warehouse_id ids = (Ok stocks, ids') →
       snd (push_batches update stocks 2000) = None →
       ∃ not_empty,
         MarketDriver.upload_stocks date update feed (Ok ids) warehouse_id
         = (Ok (not_empty, stocks), fst (push_batches update stocks 2000))
         ∧ concat (fst (push_batches update stocks 2000)) = stocks
         ∧ stocked Market.sku Market.quantity feed stocks not_empty).
Proof.
  split.
  - intros update feed ids not_empty stocks pushed.
    unfold SellerDriver.upload_stocks.
    destruct (Seller.create_stocks feed ids) as [[st|e] ids'] eqn:Hs; [|done].
    pose proof (push_batches_concat update st 100 ltac:(lia)) as Hpush.
    destruct (push_batches update st 100) as [p [e|]]; [done|].
    intros [= <- <- <-]. split; [done|]. split; [by apply Hpush|].
    assert (filter (λ s, Seller.stock_stock s ≠ 0) st
            = filter (λ s, Seller.quantity s ≠ Some 0) st) as ->.
    { apply list_filter_iff. intros s. unfold Seller.quantity.
      split; [intros Hn [= ?]; done|intros Hn ?; apply Hn; by f_equal]. }
    by eapply (filter_stocked _ _ _ _ _ _ _ seller_key seller_quantity).
  - intros date update feed ids wh stocks ids' Hs Hnone.
    unfold MarketDriver.upload_stocks. rewrite Hs.
    pose proof (push_batches_concat update stocks 2000 ltac:(lia)) as Hpush.
    destruct (push_batches update stocks 2000) as [p r]. cbn [fst snd] in *.
    subst r.
    pose proof (create_stocks_built _ _ _ _ _ Hs) as (matched & Hst & Hbuilt).
    rewrite (market_filter_counted wh date).
    + eexists. split; [done|]. split; [by apply Hpush|].
      by eapply (filter_stocked _ _ _ _ _ _ _ (market_key wh date)
                   (market_quantity wh date)).
    + rewrite Hst. apply Forall_app. split.
      * eapply Forall_impl; [exact Hbuilt|]. intros s (w & q & _ & ->). eauto.
      * apply Forall_forall. intros s (x & -> & _)%elem_of_map_inv. eauto.
Qed.

Lemma upload_stocks_not_empty_witness :
  stocked Seller.stock_offer_id Seller.quantity feed_ab
    [Seller.Stock "A" 100; Seller.Stock "B" 0; Seller.Stock "C" 0]
    [Seller.Stock "A" 100].
Proof.
  apply (proj1 upload_stocks_not_empty (λ _ _, Ok tt) feed_ab ["A"; "B"; "C"]
           [Seller.Stock "A" 100]
           [Seller.Stock "A" 100; Seller.Stock "B" 0; Seller.Stock "C" 0]
           [[Seller.Stock "A" 100; Seller.Stock "B" 0; Seller.Stock "C" 0]]).
  vm_compute. reflexivity.
Defined.

(** [X12] In [main] of [seller.py], when the listing names no identifier
    twice, no price batch is ever pushed: [create_prices] receives the list
    [create_stocks] has consumed, and finds no feed row in it.  The stock
    batches pushed have at most 100 elements, and when nothing is caught
    they hold, in order, the stock updates, one per listed identifier. *)
Theorem main_pushes_no_price :
  ∀ ids download_stock update_stocks update_price,
    NoDup ids →
    let r := SellerDriver.main (Ok ids) download_stock update_stocks update_price in
    SellerDriver.price_pushes r = []
    ∧ Forall (λ b, (0 < length b ≤ 100)%nat) (SellerDriver.stock_pushes r)
    ∧ (SellerDriver.caught r = None →
       ∃ feed stocks,
         download_stock = Ok feed
         ∧ fst (Seller.create_stocks feed ids) = Ok stocks
         ∧ concat (SellerDriver.stock_pushes r) = stocks
         ∧ length stocks = length ids).
Proof.
  intros ids dl us up Hnd r. subst r. unfold SellerDriver.main.
  destruct dl as [feed|e]; [|by repeat split].
  destruct (Seller.create_stocks feed ids) as [[stocks|e] ids1] eqn:Hs;
    [|by repeat split].
  pose proof (push_batches_spec_bounds us stocks 100 ltac:(lia)) as Hb.
  pose proof (push_batches_concat us stocks 100 ltac:(lia)) as Hc.
  destruct (push_batches us stocks 100) as [pushed [e|]]; cbn [fst snd] in *;
    [by repeat split|].
  destruct (Seller.create_prices feed ids1) as [[prices|e] ids2] eqn:Hp;
    [|by repeat split].
  assert (prices = []) as ->.
  { apply (main_payloads_prices feed ids stocks prices ids2 Hnd).
    unfold Seller.main_payloads, bindM. by rewrite Hs, Hp. }
  change (push_batches up [] 900) with (@nil (list Seller.price), @None exn).
  cbn. split; [done|]. split; [done|]. intros _.
  exists feed, stocks. split; [done|]. rewrite Hs. split; [done|].
  split; [by apply Hc|].
  apply (create_stocks_shape _ _ seller_key) in Hs as (-> & m & _ & Hk & ->).
  rewrite <- (length_map Seller.stock_offer_id), map_app, Hk.
  rewrite (map_key_zero _ _ seller_key).
  symmetry. apply Permutation_length, matched_remaining_perm.
Qed.

Lemma main_pushes_no_price_witness :
  SellerDriver.price_pushes
    (SellerDriver.main (Ok ["A"; "B"; "C"]) (Ok feed_ab)
       (λ _ _, Ok tt) (λ _ _, Ok tt))
  = [].
Proof.
  apply (main_pushes_no_price ["A"; "B"; "C"] (Ok feed_ab)
           (λ _ _, Ok tt) (λ _ _, Ok tt)).
  apply (bool_decide_unpack _). vm_compute. exact I.
Defined.

(** ** What the listings return *)

Lemma eq_int_true v n : eq_int v n = true → v = VInt n.
Proof. destruct v as [| |z]; cbn; try done. by intros ->%Z.eqb_eq. Qed.

(** [X13] When the [get_offer_ids] of [seller.py] returns, it has made at
    least one request, and it returns exactly as many identifiers as the
    last answer reports as total: one per product collected, in the order
    of the pages. *)
Theorem ozon_listing_count :
  ∀ server fuel ids n,
    Seller.get_offer_ids server fuel = Some (Ok ids, n) →
    ∃ k some_prod product_list,
      n = Datatypes.S k
      ∧ Seller.answer server k = Some (Ok some_prod)
      ∧ Seller.page_total some_prod = VInt (Z.of_nat (length ids))
      ∧ Seller.collected server k = Some product_list
      ∧ ids = map (get "offer_id") product_list.
Proof.
  intros server fuel ids n. unfold Seller.get_offer_ids.
  destruct (Seller.listing server fuel 0 (VStr "") []) as [[[pl|e] n']|] eqn:Hrun;
    try done.
  cbn [bind]. intros [= <- <-].
  apply (proj1 (ozon_terminates server)) in Hrun
    as [(k & -> & _ & Hsig & _) Hcol].
  cbn [pred] in Hcol. unfold Seller.signal in Hsig. rewrite Hcol in Hsig.
  destruct (Seller.answer server k) as [[p|]|] eqn:Ha; try done.
  exists k, p, pl. split; [done|]. split; [done|].
  split; [|done]. rewrite length_map. by apply eq_int_true.
Qed.

Lemma ozon_listing_count_witness :
  ∃ k some_prod product_list,
    2%nat = Datatypes.S k
    ∧ Seller.answer ozon_two_pages k = Some (Ok some_prod)
    ∧ Seller.page_total some_prod
      = VInt (Z.of_nat (length [VStr "A"; VStr "B"; VStr "C"]))
    ∧ Seller.collected ozon_two_pages k = Some product_list
    ∧ [VStr "A"; VStr "B"; VStr "C"] = map (get "offer_id") product_list.
Proof.
  apply (ozon_listing_count ozon_two_pages 5). vm_compute. reflexivity.
Defined.




(** ** What the feed loader leaves behind *)

(** [X15] After [download_stock] has returned, the working directory holds
    what it held before and every member of the archive, except
    "ostatki.xls": the other members are never removed.  When the download
    or the archive fails, the directory is as it was. *)
Theorem download_stock_directory :
  (∀ (members : list string) watch_remnants files r files',
     Seller.download_stock (Ok members) (Ok watch_remnants) files = (Ok r, files') →
     r = watch_remnants
     ∧ ∀ name, name ∈ files'
               ↔ name ≠ Seller.excel_file ∧ (name ∈ members ∨ name ∈ files))
  ∧ (∀ e read_excel files,
       Seller.download_stock (Raise e) read_excel files = (Raise e, files)).
Proof.
  split; [|done].
  intros members rows files r files'. unfold Seller.download_stock.
  case_decide as Hin; [|done]. intros [= <- <-]. split; [done|].
  intros name. rewrite elem_of_difference, elem_of_union, elem_of_list_to_set.
  rewrite elem_of_singleton. tauto.
Qed.

Lemma download_stock_directory_witness :
  "readme.txt"
  ∈ ((list_to_set ["readme.txt"; "ostatki.xls"] ∪ ∅)
       ∖ {[Seller.excel_file]} : gset string)
  ↔ "readme.txt" ≠ Seller.excel_file
    ∧ ("readme.txt" ∈ ["readme.txt"; "ostatki.xls"]
       ∨ "readme.txt" ∈ (∅ : gset string)).
Proof.
  apply (proj2 (proj1 download_stock_directory
                  ["readme.txt"; "ostatki.xls"] [] ∅ [] _
                  ltac:(unfold Seller.download_stock;
                        rewrite decide_True by set_solver; reflexivity))
           "readme.txt").
Defined.

(** ** A listing that never ends *)

Lemma ozon_before_grows (server : nat → value → result Seller.page) (T : Z) :
  (∀ k last_id, ∃ some_prod,
      server k last_id = Ok some_prod ∧ Seller.page_total some_prod = VInt T) →
  ∀ k, ∃ last_id product_list,
    Seller.before server (Datatypes.S k) = Some (last_id, product_list)
    ∧ (∀ some_prod, server 0%nat (VStr "") = Ok some_prod →
         (length (Seller.page_items some_prod) ≤ length product_list)%nat).
Proof.
  intros Hserver. induction k as [|k (lid & pl & Hb & Hlen)].
  - destruct (Hserver 0%nat (VStr "")) as (p & Hp & _).
    cbn [Seller.before]. rewrite Hp. eexists _, _. split; [done|].
    intros p' [= <-]. done.
  - destruct (Hserver (Datatypes.S k) lid) as (p & Hp & _).
    rewrite (ozon_before_S server _ _ _ Hb), Hp. eexists _, _. split; [done|].
    intros p' Hp'. rewrite length_app. specialize (Hlen p' Hp'). lia.
Qed.

(** [X16] The loop of [seller.py] has no exit but the equality of the total
    and the number of products collected: against a server that always
    answers with the same total and whose first page alone holds more
    products than that, [get_offer_ids] never returns. *)
Theorem ozon_listing_overshoot :
  ∀ (server : nat → value → result Seller.page) (T : Z) (first : Seller.page),
    (∀ k last_id, ∃ some_prod,
        server k last_id = Ok some_prod ∧ Seller.page_total some_prod = VInt T) →
    server 0%nat (VStr "") = Ok first →
    T < Z.of_nat (length (Seller.page_items first)) →
    ∀ fuel, Seller.get_offer_ids server fuel = None.
Proof.
  intros server T first Hserver Hfirst Hover fuel.
  unfold Seller.get_offer_ids.
  assert (Seller.listing server fuel 0 (VStr "") [] = None) as ->; [|done].
  apply (proj1 (proj2 (ozon_terminates server))). intros j _.
  destruct (ozon_before_grows server T Hserver j) as (lid & pl & Hb & Hlen).
  split; [|by rewrite Hb].
  unfold Seller.signal, Seller.collected. rewrite Hb. cbn.
  destruct (Seller.answer server j) as [[p|]|] eqn:Ha; try done.
  unfold Seller.answer in Ha.
  destruct (Seller.before server j) as [[lid' pl']|]; [|done].
  injection Ha as Ha. destruct (Hserver j lid') as (p' & Hp' & Htot).
  rewrite Hp' in Ha. injection Ha as <-. rewrite Htot. cbn.
  apply Z.eqb_neq. specialize (Hlen first Hfirst). lia.
Qed.

Lemma ozon_listing_overshoot_witness :
  Seller.get_offer_ids ozon_overshoot 1000 = None.
Proof.
  apply (ozon_listing_overshoot ozon_overshoot 1
           (Seller.Page [{["offer_id" := VStr "A"]}; {["offer_id" := VStr "B"]}]
              (VInt 1) (VStr "next"))).
  - intros k lid. by eexists.
  - reflexivity.
  - cbn. lia.
Defined.

(** ** Exceptions in the middle of the feed *)

Lemma match_stocks_app {S} (mk : string → Z → S) pre post : ∀ acc ids,
  Reconcile.match_stocks mk (pre ++ post) acc ids
  = match Reconcile.match_stocks mk pre acc ids with
    | (Ok acc', ids') => Reconcile.match_stocks mk post acc' ids'
    | (Raise e, ids') => (Raise e, ids')
    end.
Proof.
  induction pre as [|w pre IH]; intros acc ids; [done|].
  cbn [app Reconcile.match_stocks]. unfold bindM, contains, lift, list_remove.
  case_bool_decide; [|apply IH].
  destruct (Reconcile.stock_of w); [|done].
  rewrite bool_decide_true by done. apply IH.
Qed.

Lemma create_stocks_no_rollback {S} (mk : string → Z → S)
    pre w post ids before ids1 e :
  Reconcile.create_stocks mk pre ids = (Ok before, ids1) →
  code w ∈ ids1 →
  Reconcile.stock_of w = Raise e →
  Reconcile.create_stocks mk (pre ++ w :: post) ids = (Raise e, ids1).
Proof.
  unfold Reconcile.create_stocks, bindM, iterate, ret. intros Hpre Hin Hw.
  rewrite match_stocks_app.
  destruct (Reconcile.match_stocks mk pre [] ids) as [[m|e'] ids'];
    [|done].
  injection Hpre as _ ->.
  cbn [Reconcile.match_stocks]. unfold bindM, contains, lift. fold (code w).
  rewrite bool_decide_true by done. by rewrite Hw.
Qed.

(** [X17] When a quantity stops [create_stocks], nothing is rolled back: the
    caller's list has lost the identifiers of the rows matched before the
    failing one, and still holds the identifier of the failing row. *)
Theorem create_stocks_raise_state :
  (∀ pre w post ids before ids1 e,
     Seller.create_stocks pre ids = (Ok before, ids1) →
     code w ∈ ids1 →
     Reconcile.stock_of w = Raise e →
     Seller.create_stocks (pre ++ w :: post) ids = (Raise e, ids1))
  ∧ (∀ date warehouse_id pre w post ids before ids1 e,
       Market.create_stocks date pre warehouse_id ids = (Ok before, ids1) →
       code w ∈ ids1 →
       Reconcile.stock_of w = Raise e →
       Market.create_stocks date (pre ++ w :: post) warehouse_id ids
       = (Raise e, ids1)).
Proof.
  split.
  - intros pre w post ids before ids1 e. apply create_stocks_no_rollback.
  - intros date wh pre w post ids before ids1 e.
    apply create_stocks_no_rollback.
Qed.

Lemma create_stocks_raise_state_witness :
  Seller.create_stocks
    ([row (VStr "A") (VStr ">10") (VStr "100.00")]
     ++ row (VStr "B") (VStr "few") (VStr "50.00") :: [])
    ["A"; "B"; "C"]
  = (Raise ValueError, ["B"; "C"]).
Proof.
  apply (proj1 create_stocks_raise_state
           [row (VStr "A") (VStr ">10") (VStr "100.00")]
           (row (VStr "B") (VStr "few") (VStr "50.00")) [] ["A"; "B"; "C"]
           [Seller.Stock "A" 100; Seller.Stock "B" 0; Seller.Stock "C" 0]).
  - vm_compute. reflexivity.
  - vm_compute. apply list_elem_of_here.
  - vm_compute. reflexivity.
Defined.

Lemma create_prices_raise {P} (mk : dict → result P) pre w post ids e :
  (∀ v, v ∈ pre → code v ∈ ids → ∃ p, mk v = Ok p) →
  code w ∈ ids →
  mk w = Raise e →
  Reconcile.create_prices mk (pre ++ w :: post) ids = (Raise e, ids).
Proof.
  intros Hpre Hin Hw. unfold Reconcile.create_prices.
  pose proof (match_prices_fst mk (pre ++ w :: post) [] ids) as Hfst.
  pose proof (match_prices_snd mk (pre ++ w :: post) [] ids) as Hsnd.
  destruct (Reconcile.match_prices mk (pre ++ w :: post) [] ids) as [r ids'].
  cbn [fst snd] in *. subst ids'. f_equal. rewrite Hfst.
  rewrite filter_app, filter_cons_True by done. rewrite for_each_app.
  destruct (for_each_returns mk (filter (λ v, code v ∈ ids) pre)) as [m ->].
  { intros v [Hc Hv]%list_elem_of_filter. by apply Hpre. }
  cbn. by rewrite Hw.
Qed.

(** [X18] A feed row with a listed code whose price cell is not a string, an
    integer or a missing cell for instance, stops [create_prices] with
    [AttributeError] in both files, once the listed rows before it have been
    priced; the list of identifiers is left as it was. *)
Theorem create_prices_needs_string :
  (∀ pre w post ids,
     (∀ v, v ∈ pre → code v ∈ ids → ∃ p, Seller.mk_price v = Ok p) →
     code w ∈ ids →
     (∀ s, get "Цена" w ≠ VStr s) →
     Seller.create_prices (pre ++ w :: post) ids = (Raise AttributeError, ids))
  ∧ (∀ pre w post ids,
       (∀ v, v ∈ pre → code v ∈ ids → ∃ p, Market.mk_price v = Ok p) →
       code w ∈ ids →
       (∀ s, get "Цена" w ≠ VStr s) →
       Market.create_prices (pre ++ w :: post) ids = (Raise AttributeError, ids)).
Proof.
  split; intros pre w post ids Hpre Hin Hw;
    (apply create_prices_raise; [done|done|]).
  - unfold Seller.mk_price. destruct (get "Цена" w) as [|s|]; try done.
    by destruct (Hw s).
  - unfold Market.mk_price. destruct (get "Цена" w) as [|s|]; try done.
    by destruct (Hw s).
Qed.

Lemma create_prices_needs_string_witness :
  Seller.create_prices
    ([] ++ row (VStr "A") (VInt 3) (VInt 5990) :: feed_ab) ["A"; "B"]
  = (Raise AttributeError, ["A"; "B"]).
Proof.
  apply (proj1 create_prices_needs_string []
           (row (VStr "A") (VInt 3) (VInt 5990)) feed_ab ["A"; "B"]).
  - by intros v ?%elem_of_nil.
  - vm_compute. apply list_elem_of_here.
  - intros s. vm_compute. discriminate.
Defined.
